(** * The scraper registry and the heartbeat scraper of mysqld_exporter

    A shallow embedding of the [collector] package: the scraper registry
    (registerScraper, LookupScraper, IsScraperEnabled, SetScraperEnabled,
    AllScraperFlags, mustRegisterScraperWithDefaults) and the heartbeat
    scraper of [collector/heartbeat.go] (Args, Configure, nowExpr, Scrape).

    Go maps are [gmap]s, Go strings are [string]s, pointers to scraper
    instances are addresses into an explicit store, the output channel of a
    scrape is the list of metrics sent on it, and a Go [error] result is an
    [option error] ([None] is [nil]). *)

From Stdlib Require Import Ascii QArith.
From stdpp Require Import gmap strings list fin_maps functions pretty.

Local Open Scope string_scope.
Local Open Scope list_scope.
Local Open Scope Z_scope.

(** ** Argument model *)

(** The dynamic values an [interface{}] argument value can hold. *)
Inductive value :=
  | VString (s : string)
  | VBool (b : bool)
  | VInt (n : Z)
  | VNil.

(** The dynamic type of a value: what a Go type assertion inspects. *)
Inductive kind := KString | KBool | KInt | KNil.

Definition kindOf (v : value) : kind :=
  match v with
  | VString _ => KString
  | VBool _ => KBool
  | VInt _ => KInt
  | VNil => KNil
  end.

Global Instance kind_eq_dec : EqDecision kind.
Proof. solve_decision. Defined.

Global Instance value_eq_dec : EqDecision value.
Proof. solve_decision. Defined.

(** [argDef] as the literals of [heartbeatArgDefs] build it. *)
Record argDef := mkArgDef {
  name : string;
  help : string;
  defaultValue : value
}.

(** The [Arg] interface as [ScrapeHeartbeat.Args] builds it ([&arg{name, value}])
    and as [Configure] reads it ([arg.Name()], [arg.Value()]). *)
Module Arg.
Record t := mk {
  Name : string;
  Value : value
}.
End Arg.

Global Instance Arg_eq_dec : EqDecision Arg.t.
Proof. solve_decision. Defined.

(** Go [error] values.  [Errorf] is the result of [fmt.Errorf] with its
    formatted message; [ErrLibrary] stands for an error produced by a library
    the package calls ([database/sql], [strconv]). *)
Inductive error :=
  | Errorf (msg : string)
  | ErrWrongArgType (scraper argName : string) (v : value)
  | ErrUnknownArg (scraper argName : string)
  | ErrLibrary (msg : string).

Global Instance error_eq_dec : EqDecision error.
Proof. solve_decision. Defined.

(** Modelled from the spec: [wrongArgTypeError], called by [Configure], whose
    body is not available; the spec says the wrong-type error bears the
    scraper name and the argument name.  The value is kept as passed. *)
Definition wrongArgTypeError (scraper argName : string) (v : value) : error :=
  ErrWrongArgType scraper argName v.

(** Modelled from the spec: [unknownArgError], called by [Configure], whose
    body is not available; the spec says the unknown-argument error bears
    the scraper name and the argument name. *)
Definition unknownArgError (scraper argName : string) : error :=
  ErrUnknownArg scraper argName.

(** Modelled from the spec: [defaultArgs], called by
    [mustRegisterScraperWithDefaults], whose body is not available; the spec
    says it materializes one Arg per ArgDef using its default. *)
Definition defaultArgs (defs : list argDef) : list Arg.t :=
  (λ d, Arg.mk (name d) (defaultValue d)) <$> defs.

(** What an error says about its origin. *)
Inductive errorKind := WrongType | UnknownArgument.

Definition errorKindOf (e : error) : option errorKind :=
  match e with
  | ErrWrongArgType _ _ _ => Some WrongType
  | ErrUnknownArg _ _ => Some UnknownArgument
  | _ => None
  end.

Definition errorScraper (e : error) : option string :=
  match e with
  | ErrWrongArgType s _ _ | ErrUnknownArg s _ => Some s
  | _ => None
  end.

Definition errorArg (e : error) : option string :=
  match e with
  | ErrWrongArgType _ a _ | ErrUnknownArg _ a => Some a
  | _ => None
  end.

(** The declaration of an argument name in a list of definitions: the first
    definition carrying that name. *)
Fixpoint lookupArgDef (defs : list argDef) (n : string) : option argDef :=
  match defs with
  | [] => None
  | d :: defs' => if decide (name d = n) then Some d else lookupArgDef defs' n
  end.

(** The validation rule in the spec's words: an argument whose name is
    absent from the definitions is an unknown argument; one whose value's
    variant tag differs from the declared default's tag has the wrong type. *)
Definition specCheck (defs : list argDef) (a : Arg.t) : option errorKind :=
  match lookupArgDef defs (Arg.Name a) with
  | None => Some UnknownArgument
  | Some d =>
      if decide (kindOf (Arg.Value a) = kindOf (defaultValue d)) then None
      else Some WrongType
  end.

(** ** The heartbeat scraper *)

Module Heartbeat.

Definition heartbeat : string := "heartbeat".

Definition heartbeatDatabase : string := "database".
Definition heartbeatTable : string := "table".
Definition heartbeatUtc : string := "utc".

Definition heartbeatArgDefs : list argDef :=
  [ mkArgDef heartbeatDatabase
      "Database from where to collect heartbeat data"
      (VString "heartbeat");
    mkArgDef heartbeatTable
      "Database from where to collect heartbeat data"
      (VString "heartbeat");
    mkArgDef heartbeatUtc
      "Use UTC for timestamps of the current server (`pt-heartbeat` is called with `--utc`)"
      (VBool false) ].

(** The fields of the struct; the embedded [sync.RWMutex] has no content in
    a sequential model. *)
Record ScrapeHeartbeat := mk {
  database : string;
  enabled : bool;
  table : string;
  utc : bool
}.

(** [&ScrapeHeartbeat{}]: every field at its zero value. *)
Definition zero : ScrapeHeartbeat := mk "" false "" false.

Definition Name (s : ScrapeHeartbeat) : string := "heartbeat".
Definition Help (s : ScrapeHeartbeat) : string := "Collect from heartbeat".

Definition Enabled (s : ScrapeHeartbeat) : bool := enabled s.

Definition SetEnabled (s : ScrapeHeartbeat) (b : bool) : ScrapeHeartbeat :=
  mk (database s) b (table s) (utc s).

Definition Args (s : ScrapeHeartbeat) : list Arg.t :=
  [ Arg.mk heartbeatDatabase (VString (database s));
    Arg.mk heartbeatTable (VString (table s));
    Arg.mk heartbeatUtc (VBool (utc s)) ].

(** One iteration of the loop of [Configure]: the [switch] on [arg.Name()]
    with its type assertions.  [inr] is the early [return] of an error. *)
Definition configureArg (s : ScrapeHeartbeat) (a : Arg.t)
  : ScrapeHeartbeat + error :=
  if decide (Arg.Name a = heartbeatDatabase) then
    match Arg.Value a with
    | VString d => inl (mk d (enabled s) (table s) (utc s))
    | _ => inr (wrongArgTypeError (Name s) (Arg.Name a) (Arg.Value a))
    end
  else if decide (Arg.Name a = heartbeatTable) then
    match Arg.Value a with
    | VString t => inl (mk (database s) (enabled s) t (utc s))
    | _ => inr (wrongArgTypeError (Name s) (Arg.Name a) (Arg.Value a))
    end
  else if decide (Arg.Name a = heartbeatUtc) then
    match Arg.Value a with
    | VBool u => inl (mk (database s) (enabled s) (table s) u)
    | _ => inr (wrongArgTypeError (Name s) (Arg.Name a) (Arg.Value a))
    end
  else inr (unknownArgError (Name s) (Arg.Name a)).

(** [Configure]: the receiver is mutated in place, so the state reached
    when the error is returned is part of the result. *)
Fixpoint Configure (s : ScrapeHeartbeat) (args : list Arg.t)
  : ScrapeHeartbeat * option error :=
  match args with
  | [] => (s, None)
  | a :: args' =>
      match configureArg s a with
      | inl s' => Configure s' args'
      | inr e => (s, Some e)
      end
  end.

(** The write an accepted argument performs, in the spec's words: the
    field named by the argument takes the argument's value.  Anything else
    leaves the state as it is. *)
Definition assign (s : ScrapeHeartbeat) (a : Arg.t) : ScrapeHeartbeat :=
  match Arg.Name a, Arg.Value a with
  | "database", VString d => mk d (enabled s) (table s) (utc s)
  | "table", VString t => mk (database s) (enabled s) t (utc s)
  | "utc", VBool u => mk (database s) (enabled s) (table s) u
  | _, _ => s
  end.

Definition nowExpr (utc : bool) : string :=
  if utc then "UTC_TIMESTAMP(6)" else "NOW(6)".

(** *** Scrape *)

(** [strconv.Itoa]: the decimal rendering of an [int]. *)
Definition Itoa (i : Z) : string := pretty i.

(** [prometheus.BuildFQName]. *)
Definition BuildFQName (namespace subsystem nm : string) : string :=
  if decide (nm = "") then ""
  else if decide (namespace ≠ "" ∧ subsystem ≠ "") then
    namespace +:+ "_" +:+ subsystem +:+ "_" +:+ nm
  else if decide (namespace ≠ "") then namespace +:+ "_" +:+ nm
  else if decide (subsystem ≠ "") then subsystem +:+ "_" +:+ nm
  else nm.

(** [prometheus.Desc], as far as [NewDesc] is given it here. *)
Record Desc := mkDesc {
  fqName : string;
  descHelp : string;
  variableLabels : list string
}.

Inductive ValueType := CounterValue | GaugeValue | UntypedValue.

(** What one row of the result set gives to [heartbeatRows.Scan(&ts, &now,
    &serverId)]: an error, or the three columns. *)
Inductive row :=
  | ScanError (e : error)
  | Scanned (ts now : string) (serverId : Z).

(** What the loop over the rows ends in: a returned error value, or a panic
    of [MustNewConstMetric]. *)
Inductive ending :=
  | Return (err : option error)
  | Panic.

Definition heartbeatQuery (nowE db tbl : string) : string :=
  "SELECT UNIX_TIMESTAMP(ts), UNIX_TIMESTAMP(" +:+ nowE
    +:+ "), server_id from `" +:+ db +:+ "`.`" +:+ tbl +:+ "`".

Section Scrape.

(** [float64] and [strconv.ParseFloat(_, 64)] belong to the Go runtime and
    library; [namespace] is a constant of the package declared in another
    file. *)
Context {float64 : Type}.
Variable ParseFloat : string → float64 + error.
Variable namespace : string.

Record Metric := mkMetric {
  desc : Desc;
  valueType : ValueType;
  metricValue : float64;
  labelValues : list string
}.

Definition HeartbeatStoredDesc : Desc :=
  mkDesc (BuildFQName namespace heartbeat "stored_timestamp_seconds")
    "Timestamp stored in the heartbeat table." ["server_id"].

Definition HeartbeatNowDesc : Desc :=
  mkDesc (BuildFQName namespace heartbeat "now_timestamp_seconds")
    "Timestamp of the current server." ["server_id"].

(** [prometheus.MustNewConstMetric]: panics ([None]) when the number of
    label values is not the number of variable labels of the descriptor. *)
Definition MustNewConstMetric (d : Desc) (vt : ValueType) (v : float64)
    (labels : list string) : option Metric :=
  if decide (length labels = length (variableLabels d)) then
    Some (mkMetric d vt v labels)
  else None.

(** The loop [for heartbeatRows.Next() { ... }]: the metrics sent on the
    channel, in order, and how the loop ends. *)
Fixpoint scrapeRows (rows : list row) : list Metric * ending :=
  match rows with
  | [] => ([], Return None)
  | ScanError e :: _ => ([], Return (Some e))
  | Scanned ts now serverId :: rows' =>
      match ParseFloat ts with
      | inr e => ([], Return (Some e))
      | inl tsFloatVal =>
          match ParseFloat now with
          | inr e => ([], Return (Some e))
          | inl nowFloatVal =>
              let serverId := Itoa serverId in
              match MustNewConstMetric HeartbeatNowDesc GaugeValue
                      nowFloatVal [serverId] with
              | None => ([], Panic)
              | Some m1 =>
                  match MustNewConstMetric HeartbeatStoredDesc GaugeValue
                          tsFloatVal [serverId] with
                  | None => ([m1], Panic)
                  | Some m2 =>
                      let '(sent, e) := scrapeRows rows' in
                      (m1 :: m2 :: sent, e)
                  end
              end
          end
      end
  end.

(** [Scrape]: [db] is [db.QueryContext(ctx, _)], the answer of the data
    source to a query under the supplied context. *)
Definition Scrape (s : ScrapeHeartbeat) (db : string → list row + error)
  : list Metric * ending :=
  let query := heartbeatQuery (nowExpr (utc s)) (database s) (table s) in
  match db query with
  | inr err => ([], Return (Some err))
  | inl heartbeatRows => scrapeRows heartbeatRows
  end.

(** The two samples of a row, in the order they are sent. *)
Definition rowSamples (tsVal nowVal : float64) (serverId : Z) : list Metric :=
  [ mkMetric HeartbeatNowDesc GaugeValue nowVal [Itoa serverId];
    mkMetric HeartbeatStoredDesc GaugeValue tsVal [Itoa serverId] ].

(** A row the loop body gets through: it scans and both timestamps parse. *)
Definition rowParses (r : row) : option (list Metric) :=
  match r with
  | ScanError _ => None
  | Scanned ts now serverId =>
      match ParseFloat ts, ParseFloat now with
      | inl tsVal, inl nowVal => Some (rowSamples tsVal nowVal serverId)
      | _, _ => None
      end
  end.

(** The samples of a run of rows that all parse, in row order. *)
Fixpoint rowsSamples (rows : list row) : list Metric :=
  match rows with
  | [] => []
  | r :: rows' => default [] (rowParses r) ++ rowsSamples rows'
  end.

End Scrape.

End Heartbeat.

(** ** The scraper registry *)

(** Addresses: the identity of a scraper instance or of a flag clause. *)
Definition loc := positive.

(** How a call ends that may panic with [panic(fmt.Sprintf("bug: %v", err))]. *)
Inductive outcome :=
  | Returns
  | Panics (bug : error).

Section Registry.

(** The [Scraper] interface, [*kingpin.FlagClause], the [Configurable]
    interface and [makeFlagsFromScraper] are declared in other files:
    the registry is embedded over any type of scraper values with a [Name()]
    method, any type of flag clauses and any [makeFlagsFromScraper].
    [Store] is the memory the scraper instances live in, which [Configure]
    mutates. *)
Context {Scraper FlagClause Store : Type}.
Variable Name : Scraper → string.
Variable makeFlagsFromScraper : Scraper → bool → gmap string FlagClause.

(** The [Configurable] capability of a scraper value: the two methods the
    registry calls on it. *)
Record Configurable := mkConfigurable {
  ArgDefinitions : list argDef;
  Configure : list Arg.t → Store → Store * option error
}.

(** The type assertion [s.(Configurable)]. *)
Variable asConfigurable : Scraper → option Configurable.

Record scraperEntry := mkEntry {
  enabled : bool;
  flags : gmap string FlagClause;
  scraper : Scraper
}.

(** The registry maps a name to a pointer to an entry; entries are created
    by [registerScraper] only and their pointers never leave the registry,
    so the map holds the entries themselves. *)
Definition IsScraperEnabled (nm : string) (reg : gmap string scraperEntry)
  : bool :=
  match reg !! nm with
  | None => false
  | Some se => enabled se
  end.

Definition LookupScraper (nm : string) (reg : gmap string scraperEntry)
  : option Scraper * bool :=
  match reg !! nm with
  | None => (None, false)
  | Some se => (Some (scraper se), true)
  end.

Definition SetScraperEnabled (nm : string) (b : bool)
    (reg : gmap string scraperEntry) : gmap string scraperEntry :=
  match reg !! nm with
  | Some se => <[nm := mkEntry b (flags se) (scraper se)]> reg
  | None => reg
  end.

Definition registerScraper (s : Scraper) (b : bool)
    (reg : gmap string scraperEntry)
  : gmap string scraperEntry * option error :=
  match reg !! Name s with
  | Some _ =>
      (reg, Some (Errorf ("scraper with name " +:+ Name s
                            +:+ " is already registered")))
  | None => (<[Name s := mkEntry b (makeFlagsFromScraper s b) s]> reg, None)
  end.

Definition mustRegisterScraperWithDefaults (s : Scraper) (b : bool)
    (st : Store) (reg : gmap string scraperEntry)
  : Store * gmap string scraperEntry * outcome :=
  let '(st1, err) :=
    match asConfigurable s with
    | Some cfg => Configure cfg (defaultArgs (ArgDefinitions cfg)) st
    | None => (st, None)
    end in
  match err with
  | Some e => (st1, reg, Panics e)
  | None =>
      match registerScraper s b reg with
      | (reg1, Some e) => (st1, reg1, Panics e)
      | (reg1, None) => (st1, reg1, Returns)
      end
  end.

(** A [range] over the registry visits every entry once, in an order Go
    leaves unspecified: any listing of the map that is a permutation of its
    entries is an order the loop can take. *)
Definition rangeOrder (reg : gmap string scraperEntry)
    (order : list (string * scraperEntry)) : Prop :=
  order ≡ₚ map_to_list reg.

(** [AllScrapers] along an order of the range. *)
Definition AllScrapersIn (order : list (string * scraperEntry))
  : list Scraper :=
  (λ kv, scraper kv.2) <$> order.

(** The inner loop of [AllScraperFlags]: [flags[name] = flag] for every
    binding of one entry. *)
Definition copyFlags (acc : gmap string FlagClause)
    (fl : gmap string FlagClause) : gmap string FlagClause :=
  map_fold (λ nm flag acc', <[nm := flag]> acc') acc fl.

(** [AllScraperFlags] along an order of the outer range. *)
Definition AllScraperFlagsIn (order : list (string * scraperEntry))
  : gmap string FlagClause :=
  foldl (λ acc kv, copyFlags acc (flags kv.2)) ∅ order.

(** [AllScraperFlags] as a relation: the results of its possible runs. *)
Definition AllScraperFlags (reg : gmap string scraperEntry)
    (out : gmap string FlagClause) : Prop :=
  ∃ order, rangeOrder reg order ∧ out = AllScraperFlagsIn order.

(** A caller registering scrapers one after the other, stopping at the first
    error. *)
Fixpoint registerEach (l : list (Scraper * bool))
    (reg : gmap string scraperEntry)
  : gmap string scraperEntry * option error :=
  match l with
  | [] => (reg, None)
  | (s, b) :: l' =>
      match registerScraper s b reg with
      | (reg1, None) => registerEach l' reg1
      | (reg1, Some e) => (reg1, Some e)
      end
  end.

End Registry.

Arguments mkEntry {_ _} _ _ _.
Arguments enabled {_ _} _.
Arguments flags {_ _} _.
Arguments scraper {_ _} _.

(** ** The heartbeat scraper as a registered scraper *)




(** ** Sample inputs *)

(** A collector that is nothing but a name and its flag bindings, for
    running the registry on concrete inputs. *)
Record collector := mkCollector {
  collectorName : string;
  collectorFlags : gmap string loc
}.

Definition collectorMakeFlags (c : collector) (b : bool) : gmap string loc :=
  collectorFlags c.

(** Two collectors that bind the same flag name, and the entries
    [registerScraper] makes for them when both are registered enabled. *)
Definition firstCollector : collector :=
  mkCollector "heartbeat" {["collect.heartbeat.utc" := 1%positive]}.

Definition secondCollector : collector :=
  mkCollector "heartbeat.utc" {["collect.heartbeat.utc" := 2%positive]}.

Definition firstEntry : @scraperEntry collector loc :=
  mkEntry true (collectorMakeFlags firstCollector true) firstCollector.

Definition secondEntry : @scraperEntry collector loc :=
  mkEntry true (collectorMakeFlags secondCollector true) secondCollector.

(** The registry after registering the first collector, then the second. *)
Definition bothRegistered : gmap string (@scraperEntry collector loc) :=
  <["heartbeat.utc" := secondEntry]> (<["heartbeat" := firstEntry]> ∅).

(** The registry before any registration. *)
Definition noneRegistered : gmap string (@scraperEntry collector loc) := ∅.

(** A collector whose flag name no other sample collector binds, and a
    registry in which no flag name is bound twice. *)
Definition thirdCollector : collector :=
  mkCollector "binlog_size" {["collect.binlog_size" := 3%positive]}.

Definition thirdEntry : @scraperEntry collector loc :=
  mkEntry false (collectorMakeFlags thirdCollector false) thirdCollector.

Definition firstAndThird : gmap string (@scraperEntry collector loc) :=
  <["binlog_size" := thirdEntry]> (<["heartbeat" := firstEntry]> ∅).

(** Plain decimal literals ([digits] or [digits.digits]) read as exact
    rationals; every other string is a syntax error.  On literals whose
    value is a binary64 number this is what [strconv.ParseFloat] returns. *)
Fixpoint digitsValue (acc : N) (s : string) : option N :=
  match s with
  | EmptyString => Some acc
  | String c s' =>
      let d := N_of_ascii c in
      if decide (48 ≤ d ∧ d ≤ 57)%N
      then digitsValue (10 * acc + (d - 48))%N s'
      else None
  end.

Fixpoint splitDot (s : string) : string * option string :=
  match s with
  | EmptyString => (EmptyString, None)
  | String c s' =>
      if decide (c = "."%char) then (EmptyString, Some s')
      else let '(a, b) := splitDot s' in (String c a, b)
  end.

Definition decimalLiteral (s : string) : Q + error :=
  let syntax := inr (ErrLibrary ("strconv.ParseFloat: parsing " +:+ s
                                   +:+ ": invalid syntax")) in
  match splitDot s with
  | (EmptyString, _) => syntax
  | (ip, None) =>
      match digitsValue 0 ip with
      | Some n => inl (inject_Z (Z.of_N n))
      | None => syntax
      end
  | (_, Some EmptyString) => syntax
  | (ip, Some fp) =>
      match digitsValue 0 ip, digitsValue 0 fp with
      | Some n, Some m =>
          let scale := (10 ^ N.of_nat (String.length fp))%N in
          inl (Qred (Qmake (Z.of_N (n * scale + m)) (Pos.of_nat (N.to_nat scale))))
      | _, _ => syntax
      end
  end.

(** A data source that answers every query with the given rows. *)
Definition answering (rows : list Heartbeat.row)
  : string → list Heartbeat.row + error :=
  λ _, inl rows.

(** * Properties *)

Section ConfigureFacts.
Import Heartbeat.

(** One loop iteration of [Configure] against the validation rule of the
    spec: an accepted argument is assigned, a rejected one yields the error
    of its kind bearing the scraper name and the argument name. *)
Lemma configureArg_specCheck (s : ScrapeHeartbeat) (a : Arg.t) :
  match specCheck heartbeatArgDefs a with
  | None => configureArg s a = inl (assign s a)
  | Some k =>
      ∃ e, configureArg s a = inr e ∧ errorKindOf e = Some k
           ∧ errorScraper e = Some "heartbeat"
           ∧ errorArg e = Some (Arg.Name a)
  end.
Proof.
  destruct a as [n v]. unfold specCheck, configureArg. simpl.
  unfold heartbeatDatabase, heartbeatTable, heartbeatUtc.
  destruct (decide (n = "database")) as [->|Hd].
  { destruct v; simpl; eauto 6. }
  destruct (decide ("database" = n)) as [?|_]; [congruence|].
  destruct (decide (n = "table")) as [->|Ht].
  { destruct v; simpl; eauto 6. }
  destruct (decide ("table" = n)) as [?|_]; [congruence|].
  destruct (decide (n = "utc")) as [->|Hu].
  { destruct v; simpl; eauto 6. }
  destruct (decide ("utc" = n)) as [?|_]; [congruence|].
  simpl. eauto 6.
Qed.

Lemma Configure_accepted (args : list Arg.t) : ∀ s,
  Forall (λ a, specCheck heartbeatArgDefs a = None) args →
  Configure s args = (foldl assign s args, None).
Proof.
  induction args as [|a args IH]; intros s Hall; [done|].
  inversion Hall as [|? ? Ha Hrest]; subst. simpl.
  pose proof (configureArg_specCheck s a) as Hstep. rewrite Ha in Hstep.
  rewrite Hstep. by apply IH.
Qed.

Lemma Configure_app (pre post : list Arg.t) : ∀ s,
  Forall (λ a, specCheck heartbeatArgDefs a = None) pre →
  Configure s (pre ++ post) = Configure (foldl assign s pre) post.
Proof.
  induction pre as [|a pre IH]; intros s Hall; [done|].
  inversion Hall as [|? ? Ha Hrest]; subst. simpl.
  pose proof (configureArg_specCheck s a) as Hstep. rewrite Ha in Hstep.
  rewrite Hstep. by apply IH.
Qed.

End ConfigureFacts.

(** C5. [Configure] of the heartbeat scraper applies its arguments in
    sequence order.  When every argument before [a] is accepted and [a] is
    the first rejected one (unknown name, or variant tag different from the
    tag of the declared default), the call returns an error of that kind
    bearing the scraper name "heartbeat" and the name of [a]; the state it
    leaves is the one reached by assigning the earlier arguments, in order,
    whatever follows [a]: no rollback, nothing later applied.  A call
    whose arguments are all accepted returns nil after assigning them all. *)
Theorem Configure_stops_at_first_failure
    (s : Heartbeat.ScrapeHeartbeat) (pre post : list Arg.t) (a : Arg.t)
    (k : errorKind) :
  Forall (λ x, specCheck Heartbeat.heartbeatArgDefs x = None) pre →
  specCheck Heartbeat.heartbeatArgDefs a = Some k →
  (∃ e, Heartbeat.Configure s (pre ++ a :: post)
          = (foldl Heartbeat.assign s pre, Some e)
        ∧ errorKindOf e = Some k
        ∧ errorScraper e = Some (Heartbeat.Name s)
        ∧ errorArg e = Some (Arg.Name a))
  ∧ Heartbeat.Configure s pre = (foldl Heartbeat.assign s pre, None).
Proof.
  intros Hpre Ha. split; [|by apply Configure_accepted].
  rewrite Configure_app by done. simpl.
  pose proof (configureArg_specCheck (foldl Heartbeat.assign s pre) a) as Hstep.
  rewrite Ha in Hstep. destruct Hstep as (e & -> & ? & ? & ?). eauto.
Qed.

Lemma Configure_stops_at_first_failure_witness :
  (∃ e, Heartbeat.Configure Heartbeat.zero
          ([Arg.mk "database" (VString "hb"); Arg.mk "utc" (VBool true)]
             ++ Arg.mk "table" (VInt 3) :: [Arg.mk "table" (VString "t")])
          = (Heartbeat.mk "hb" false "" true, Some e)
        ∧ errorKindOf e = Some WrongType
        ∧ errorScraper e = Some "heartbeat"
        ∧ errorArg e = Some "table")
  ∧ Heartbeat.Configure Heartbeat.zero
      [Arg.mk "database" (VString "hb"); Arg.mk "utc" (VBool true)]
    = (Heartbeat.mk "hb" false "" true, None).
Proof.
  apply (Configure_stops_at_first_failure Heartbeat.zero
           [Arg.mk "database" (VString "hb"); Arg.mk "utc" (VBool true)]
           [Arg.mk "table" (VString "t")]
           (Arg.mk "table" (VInt 3)) WrongType).
  - repeat constructor.
  - reflexivity.
Defined.

(** ** Registry properties *)

Section RegistryFacts.
Context {Scraper FlagClause : Type}.
Variable Name : Scraper → string.
Variable makeFlagsFromScraper : Scraper → bool → gmap string FlagClause.

Implicit Types reg : gmap string (scraperEntry (Scraper := Scraper)
                                               (FlagClause := FlagClause)).

Lemma registerScraper_fresh (s : Scraper) (b : bool) reg :
  reg !! Name s = None →
  registerScraper Name makeFlagsFromScraper s b reg
  = (<[Name s := mkEntry b (makeFlagsFromScraper s b) s]> reg, None).
Proof. intros H. unfold registerScraper. by rewrite H. Qed.

Lemma LookupScraper_entry (nm : string) reg se :
  reg !! nm = Some se → LookupScraper nm reg = (Some (scraper se), true).
Proof. intros H. unfold LookupScraper. by rewrite H. Qed.

(** Registering a run of scrapers whose names are pairwise distinct and not
    yet taken: every registration succeeds and the registry gains exactly
    the entries of the run. *)
Lemma registerEach_distinct (l : list (Scraper * bool)) : ∀ reg,
  NoDup ((λ sb, Name sb.1) <$> l) →
  (∀ sb, sb ∈ l → reg !! Name sb.1 = None) →
  ∃ reg',
    registerEach Name makeFlagsFromScraper l reg = (reg', None)
    ∧ dom reg' = dom reg ∪ list_to_set ((λ sb, Name sb.1) <$> l)
    ∧ size reg' = (size reg + length l)%nat
    ∧ (∀ sb, sb ∈ l →
         reg' !! Name sb.1
         = Some (mkEntry sb.2 (makeFlagsFromScraper sb.1 sb.2) sb.1))
    ∧ (∀ nm, nm ∉ (λ sb, Name sb.1) <$> l → reg' !! nm = reg !! nm).
Proof.
  induction l as [|[s b] l IH]; intros reg Hnd Hfresh.
  { exists reg. simpl. split; [done|]. split; [by rewrite (right_id_L ∅ (∪))|].
    split; [lia|]. split; [|done]. intros sb Hsb. by apply elem_of_nil in Hsb. }
  rewrite fmap_cons in Hnd. apply NoDup_cons in Hnd as [Hnotin Hnd].
  simpl in Hnotin.
  assert (reg !! Name s = None) as Hs by (apply (Hfresh (s, b)); left).
  simpl. rewrite registerScraper_fresh by done.
  destruct (IH (<[Name s := mkEntry b (makeFlagsFromScraper s b) s]> reg))
    as (reg' & Hrun & Hdom & Hsize & Hin & Hout); [done| |].
  { intros sb Hsb. rewrite lookup_insert_ne.
    - apply Hfresh. by right.
    - intros Heq. apply Hnotin. rewrite Heq.
      by apply (list_elem_of_fmap_2 (λ sb, Name sb.1)). }
  exists reg'. split; [done|]. split; [|split; [|split]].
  - rewrite Hdom, dom_insert_L. simpl.
    rewrite (assoc_L (∪)), (comm_L (∪) (dom reg)). done.
  - rewrite Hsize, map_size_insert_None by done. simpl. lia.
  - intros sb Hsb. apply elem_of_cons in Hsb as [->|Hsb]; [|by apply Hin].
    simpl. rewrite Hout by done. by rewrite lookup_insert_eq.
  - intros nm Hnm. simpl in Hnm. apply not_elem_of_cons in Hnm as [Hne Hnm].
    rewrite Hout by done. by rewrite lookup_insert_ne.
Qed.

End RegistryFacts.

(** C1. Registering a scraper whose name is already in the registry returns
    the duplicate-name error and the registry it was given: the existing
    entry (enabled flag, flag bindings, instance) is not overwritten. *)
Theorem registerScraper_duplicate
    {Scraper FlagClause : Type} (Name : Scraper → string)
    (makeFlagsFromScraper : Scraper → bool → gmap string FlagClause)
    (s : Scraper) (b : bool)
    (reg : gmap string scraperEntry) (se : scraperEntry) :
  reg !! Name s = Some se →
  ∃ reg' e,
    registerScraper Name makeFlagsFromScraper s b reg = (reg', Some e)
    ∧ e = Errorf ("scraper with name " +:+ Name s +:+ " is already registered")
    ∧ reg' = reg
    ∧ reg' !! Name s = Some se.
Proof.
  intros H. exists reg. eexists. unfold registerScraper. rewrite H. done.
Qed.

Lemma registerScraper_duplicate_witness :
  let first := mkCollector "heartbeat" {["collect.heartbeat" := 1%positive]} in
  let second := mkCollector "heartbeat" {["collect.other" := 2%positive]} in
  let reg := (registerScraper collectorName collectorMakeFlags first true ∅).1 in
  ∃ reg' e,
    registerScraper collectorName collectorMakeFlags second false reg
    = (reg', Some e)
    ∧ e = Errorf "scraper with name heartbeat is already registered"
    ∧ reg' = reg
    ∧ reg' !! "heartbeat"
      = Some (mkEntry true {["collect.heartbeat" := 1%positive]} first).
Proof.
  intros first second reg.
  apply (registerScraper_duplicate collectorName collectorMakeFlags
           second false reg
           (mkEntry true {["collect.heartbeat" := 1%positive]} first)).
  reflexivity.
Defined.

(** C2. After a sequence of registrations of scrapers with pairwise distinct
    names (none of them taken before), every registration has succeeded, the
    registry holds exactly one entry per name of the sequence on top of the
    entries it had, and [LookupScraper] on each of these names returns the
    registered instance itself with found = true. *)
Theorem registerEach_LookupScraper
    {Scraper FlagClause : Type} (Name : Scraper → string)
    (makeFlagsFromScraper : Scraper → bool → gmap string FlagClause)
    (l : list (Scraper * bool)) (reg : gmap string scraperEntry) :
  NoDup ((λ sb, Name sb.1) <$> l) →
  (∀ sb, sb ∈ l → reg !! Name sb.1 = None) →
  ∃ reg',
    registerEach Name makeFlagsFromScraper l reg = (reg', None)
    ∧ dom reg' = dom reg ∪ list_to_set ((λ sb, Name sb.1) <$> l)
    ∧ size reg' = (size reg + length l)%nat
    ∧ (∀ sb, sb ∈ l → LookupScraper (Name sb.1) reg' = (Some sb.1, true)).
Proof.
  intros Hnd Hfresh.
  destruct (registerEach_distinct Name makeFlagsFromScraper l reg Hnd Hfresh)
    as (reg' & Hrun & Hdom & Hsize & Hin & _).
  exists reg'. repeat (split; [done|]).
  intros sb Hsb. by rewrite (LookupScraper_entry _ _ _ (Hin sb Hsb)).
Qed.

Lemma registerEach_LookupScraper_witness :
  let a := mkCollector "heartbeat" {["collect.heartbeat" := 1%positive]} in
  let b := mkCollector "binlog_size" ∅ in
  let c := mkCollector "slave_status" {["collect.slave_status" := 2%positive]} in
  let l := [(a, true); (b, false); (c, true)] in
  ∃ reg',
    registerEach collectorName collectorMakeFlags l ∅ = (reg', None)
    ∧ dom reg' = dom (∅ : gmap string (@scraperEntry collector loc))
                 ∪ list_to_set ((λ sb, collectorName sb.1) <$> l)
    ∧ size reg' = (size (∅ : gmap string (@scraperEntry collector loc))
                   + length l)%nat
    ∧ (∀ sb, sb ∈ l →
         LookupScraper (collectorName sb.1) reg' = (Some sb.1, true)).
Proof.
  intros a b c l.
  apply (registerEach_LookupScraper collectorName collectorMakeFlags l ∅).
  - apply (bool_decide_unpack _). vm_compute. exact I.
  - intros sb _. apply lookup_empty.
Defined.

(** C3. On a registered name, [SetScraperEnabled] with [b] followed by
    [IsScraperEnabled] returns [b]. *)
Theorem SetScraperEnabled_IsScraperEnabled
    {Scraper FlagClause : Type}
    (reg : gmap string (scraperEntry (Scraper := Scraper)
                                     (FlagClause := FlagClause)))
    (nm : string) (b : bool) :
  is_Some (reg !! nm) →
  IsScraperEnabled nm (SetScraperEnabled nm b reg) = b.
Proof.
  intros [se Hse]. unfold IsScraperEnabled, SetScraperEnabled.
  rewrite Hse. by rewrite lookup_insert_eq.
Qed.

Lemma SetScraperEnabled_IsScraperEnabled_witness :
  let hb := mkCollector "heartbeat" {["collect.heartbeat" := 1%positive]} in
  let reg := (registerScraper collectorName collectorMakeFlags hb true ∅).1 in
  IsScraperEnabled "heartbeat" reg = true
  ∧ IsScraperEnabled "heartbeat" (SetScraperEnabled "heartbeat" false reg)
    = false.
Proof.
  intros hb reg. split; [reflexivity|].
  apply (SetScraperEnabled_IsScraperEnabled reg "heartbeat" false).
  eexists. reflexivity.
Defined.

(** C4. On a name that is not in the registry, [SetScraperEnabled] returns
    the registry it was given: no entry is created and none is changed.  The
    function is total, so there is no panic. *)
Theorem SetScraperEnabled_unknown
    {Scraper FlagClause : Type}
    (reg : gmap string (scraperEntry (Scraper := Scraper)
                                     (FlagClause := FlagClause)))
    (nm : string) (b : bool) :
  reg !! nm = None →
  SetScraperEnabled nm b reg = reg
  ∧ SetScraperEnabled nm b reg !! nm = None
  ∧ ∀ nm', SetScraperEnabled nm b reg !! nm' = reg !! nm'.
Proof.
  intros H. unfold SetScraperEnabled. rewrite H. done.
Qed.

Lemma SetScraperEnabled_unknown_witness :
  let hb := mkCollector "heartbeat" {["collect.heartbeat" := 1%positive]} in
  let reg := (registerScraper collectorName collectorMakeFlags hb true ∅).1 in
  SetScraperEnabled "binlog_size" true reg = reg
  ∧ SetScraperEnabled "binlog_size" true reg !! "binlog_size" = None
  ∧ ∀ nm', SetScraperEnabled "binlog_size" true reg !! nm' = reg !! nm'.
Proof.
  intros hb reg.
  apply (SetScraperEnabled_unknown reg "binlog_size" true).
  reflexivity.
Defined.

(** C10. On a name that is not in the registry, [IsScraperEnabled] returns
    false, the answer it also gives for a registered scraper whose entry is
    disabled. *)
Theorem IsScraperEnabled_unknown
    {Scraper FlagClause : Type}
    (reg : gmap string (scraperEntry (Scraper := Scraper)
                                     (FlagClause := FlagClause)))
    (nm : string) :
  reg !! nm = None →
  IsScraperEnabled nm reg = false
  ∧ ∀ se, enabled se = false →
          IsScraperEnabled nm (<[nm := se]> reg) = IsScraperEnabled nm reg.
Proof.
  intros H. unfold IsScraperEnabled. rewrite H. split; [done|].
  intros se Hse. by rewrite lookup_insert_eq.
Qed.

Lemma IsScraperEnabled_unknown_witness :
  let hb := mkCollector "heartbeat" {["collect.heartbeat" := 1%positive]} in
  let reg := (registerScraper collectorName collectorMakeFlags hb true ∅).1 in
  IsScraperEnabled "binlog_size" reg = false
  ∧ ∀ se, enabled se = false →
          IsScraperEnabled "binlog_size" (<["binlog_size" := se]> reg)
          = IsScraperEnabled "binlog_size" reg.
Proof.
  intros hb reg.
  apply (IsScraperEnabled_unknown reg "binlog_size").
  reflexivity.
Defined.

(** ** Scrape properties *)

Section ScrapeFacts.
Import Heartbeat.
Context {float64 : Type}.
Variable ParseFloat : string → float64 + error.
Variable namespace : string.

Abbreviation scrapeRows := (Heartbeat.scrapeRows ParseFloat namespace).
Abbreviation rowParses := (Heartbeat.rowParses ParseFloat namespace).
Abbreviation rowsSamples := (Heartbeat.rowsSamples ParseFloat namespace).

(** The loop body on a row that scans and parses: both metrics are built
    without panic and sent, and the loop goes on. *)
Lemma scrapeRows_parsed (r : row) (rows : list row) (ms : list Metric) :
  rowParses r = Some ms →
  scrapeRows (r :: rows) = (ms ++ (scrapeRows rows).1, (scrapeRows rows).2).
Proof.
  destruct r as [e|ts now id]; simpl; [done|].
  destruct (ParseFloat ts) as [tsv|]; [|done].
  destruct (ParseFloat now) as [nowv|]; [|done].
  intros [= <-]. unfold MustNewConstMetric. simpl.
  by destruct (scrapeRows rows).
Qed.

(** The loop body on a row that does not: nothing is sent and the loop
    returns an error. *)
Lemma scrapeRows_rejected (r : row) (rows : list row) :
  rowParses r = None →
  ∃ e, scrapeRows (r :: rows) = ([], Return (Some e)).
Proof.
  destruct r as [e|ts now id]; simpl; [by eauto|].
  destruct (ParseFloat ts) as [tsv|e1]; [|by eauto].
  destruct (ParseFloat now) as [nowv|e2]; [done|by eauto].
Qed.

Lemma scrapeRows_app (pre post : list row) :
  Forall (λ r, is_Some (rowParses r)) pre →
  scrapeRows (pre ++ post)
  = (rowsSamples pre ++ (scrapeRows post).1, (scrapeRows post).2).
Proof.
  induction pre as [|r pre IH]; intros Hall.
  { simpl. by destruct (scrapeRows post). }
  inversion Hall as [|? ? [ms Hr] Hrest]; subst.
  change ((r :: pre) ++ post) with (r :: (pre ++ post)).
  rewrite (scrapeRows_parsed r _ ms Hr), IH by done.
  simpl. rewrite Hr. simpl. by rewrite (assoc_L (++)).
Qed.

Lemma rowsSamples_length (rows : list row) :
  Forall (λ r, is_Some (rowParses r)) rows →
  length (rowsSamples rows) = (2 * length rows)%nat.
Proof.
  induction 1 as [|r rows [ms Hr] _ IH]; [done|].
  simpl. rewrite Hr, length_app, IH. simpl.
  destruct r as [|ts now id]; [done|]. simpl in Hr.
  destruct (ParseFloat ts), (ParseFloat now); try done.
  injection Hr as <-. simpl. lia.
Qed.

(** What is sent is always the samples of a run of leading rows, both
    samples of each, and the loop never panics. *)
Lemma scrapeRows_whole_rows (rows : list row) :
  ∃ k, (scrapeRows rows).1 = rowsSamples (take k rows)
       ∧ Forall (λ r, is_Some (rowParses r)) (take k rows)
       ∧ (scrapeRows rows).2 ≠ Panic.
Proof.
  induction rows as [|r rows (k & Hsent & Hall & Hend)].
  { exists 0%nat. by simpl. }
  destruct (rowParses r) as [ms|] eqn:Hr.
  - exists (S k). rewrite (scrapeRows_parsed r rows ms Hr). simpl.
    rewrite Hr, Hsent. split; [done|]. split; [|done].
    constructor; [by rewrite Hr|done].
  - destruct (scrapeRows_rejected r rows Hr) as [e ->].
    exists 0%nat. by simpl.
Qed.

(** A row that does not parse makes the loop return an error wherever it
    stands: either the loop gets to it, or an earlier row already stopped
    the loop.  What has been sent is both samples of each of a run of rows
    before it. *)
Lemma scrapeRows_failing_row (r : row) (post : list row) :
  rowParses r = None →
  ∀ pre, ∃ e k,
    scrapeRows (pre ++ r :: post)
    = (rowsSamples (take k pre), Return (Some e))
    ∧ Forall (λ r', is_Some (rowParses r')) (take k pre).
Proof.
  intros Hr. induction pre as [|r0 pre (e & k & Hrun & Hall)].
  { destruct (scrapeRows_rejected r post Hr) as [e He].
    exists e, 0%nat. by rewrite take_0. }
  change ((r0 :: pre) ++ r :: post) with (r0 :: (pre ++ r :: post)).
  destruct (rowParses r0) as [ms|] eqn:Hr0.
  - exists e, (S k). rewrite (scrapeRows_parsed r0 _ ms Hr0), Hrun. simpl.
    rewrite Hr0. split; [done|]. constructor; [by rewrite Hr0|done].
  - destruct (scrapeRows_rejected r0 (pre ++ r :: post) Hr0) as [e0 He0].
    exists e0, 0%nat. by rewrite He0.
Qed.

End ScrapeFacts.




(** C9. A row whose stored or current timestamp string does not parse makes
    the scrape return an error, and nothing is sent for that row nor for any
    row after it: what has been sent is both samples of each of a run of
    rows before it, and stays sent.  When the scrape reaches the row (every
    earlier row scanned and parsed), the error is the parse error of the row
    and the samples sent are those of all earlier rows, two per row.
    Whatever the data source answers, what has been sent is made of both
    samples of each of a run of leading rows, never one sample of a row
    alone, and the scrape does not panic. *)
Theorem Scrape_parse_failure
    {float64 : Type} (ParseFloat : string → float64 + error)
    (namespace : string) (s : Heartbeat.ScrapeHeartbeat)
    (db : string → list Heartbeat.row + error)
    (pre post : list Heartbeat.row) (ts now : string) (serverId : Z) :
  db (Heartbeat.heartbeatQuery (Heartbeat.nowExpr (Heartbeat.utc s))
        (Heartbeat.database s) (Heartbeat.table s))
    = inl (pre ++ Heartbeat.Scanned ts now serverId :: post) →
  (∃ e, ParseFloat ts = inr e) ∨ (∃ e, ParseFloat now = inr e) →
  (∃ e k, Heartbeat.Scrape ParseFloat namespace s db
          = (Heartbeat.rowsSamples ParseFloat namespace (take k pre),
             Heartbeat.Return (Some e))
          ∧ Forall (λ r, is_Some (Heartbeat.rowParses ParseFloat namespace r))
              (take k pre)
          ∧ length (Heartbeat.rowsSamples ParseFloat namespace (take k pre))
            = (2 * length (take k pre))%nat)
  ∧ (Forall (λ r, is_Some (Heartbeat.rowParses ParseFloat namespace r)) pre →
     ∃ e, Heartbeat.Scrape ParseFloat namespace s db
          = (Heartbeat.rowsSamples ParseFloat namespace pre,
             Heartbeat.Return (Some e))
          ∧ (ParseFloat ts = inr e
             ∨ (∃ v, ParseFloat ts = inl v) ∧ ParseFloat now = inr e))
  ∧ ∀ (s' : Heartbeat.ScrapeHeartbeat)
      (db' : string → list Heartbeat.row + error),
      (Heartbeat.Scrape ParseFloat namespace s' db').2 ≠ Heartbeat.Panic
      ∧ ∃ rows,
          Forall (λ r, is_Some (Heartbeat.rowParses ParseFloat namespace r))
            rows
          ∧ (Heartbeat.Scrape ParseFloat namespace s' db').1
            = Heartbeat.rowsSamples ParseFloat namespace rows
          ∧ ∀ rows', db' (Heartbeat.heartbeatQuery
                            (Heartbeat.nowExpr (Heartbeat.utc s'))
                            (Heartbeat.database s') (Heartbeat.table s'))
                     = inl rows' → rows `prefix_of` rows'.
Proof.
  intros Hdb Hfail.
  assert (Heartbeat.rowParses ParseFloat namespace
            (Heartbeat.Scanned ts now serverId) = None) as Hr.
  { simpl. destruct Hfail as [[e ->]|[e ->]]; [done|].
    by destruct (ParseFloat ts). }
  split; [|split].
  - unfold Heartbeat.Scrape. rewrite Hdb.
    destruct (scrapeRows_failing_row ParseFloat namespace _ post Hr pre)
      as (e & k & Hrun & Hall).
    exists e, k. split; [done|]. split; [done|].
    by apply rowsSamples_length.
  - intros Hpre.
    unfold Heartbeat.Scrape. rewrite Hdb, scrapeRows_app by done. simpl.
    destruct (ParseFloat ts) as [tsv|e1] eqn:Hts.
    + destruct Hfail as [[e He]|[e He]]; [done|]. rewrite He. simpl.
      rewrite (right_id_L [] (++)). eauto 7.
    + simpl. rewrite (right_id_L [] (++)). eauto.
  - intros s' db'. unfold Heartbeat.Scrape.
    destruct (db' _) as [rows'|err] eqn:Hdb'.
    + destruct (scrapeRows_whole_rows ParseFloat namespace rows')
        as (k & Hsent & Hall & Hend).
      split; [done|]. exists (take k rows'). split; [done|]. split; [done|].
      intros ? [= <-]. apply prefix_take.
    + split; [done|]. exists []. split; [done|]. split; [done|].
      intros ? [=].
Qed.

Lemma Scrape_parse_failure_witness :
  let db := answering [ Heartbeat.Scanned "100.5" "200.75" 7;
                        Heartbeat.Scanned "n/a" "200.75" 8;
                        Heartbeat.Scanned "100.5" "200.75" 9 ] in
  ∃ e, Heartbeat.Scrape decimalLiteral "mysql" Heartbeat.zero db
       = (Heartbeat.rowsSamples decimalLiteral "mysql"
            [Heartbeat.Scanned "100.5" "200.75" 7],
          Heartbeat.Return (Some e))
       ∧ (decimalLiteral "n/a" = inr e
          ∨ (∃ v, decimalLiteral "n/a" = inl v)
            ∧ decimalLiteral "200.75" = inr e).
Proof.
  intros db.
  refine (proj1 (proj2 (Scrape_parse_failure decimalLiteral "mysql"
                          Heartbeat.zero db
                          [Heartbeat.Scanned "100.5" "200.75" 7]
                          [Heartbeat.Scanned "100.5" "200.75" 9]
                          "n/a" "200.75" 8 eq_refl _)) _).
  - left. eexists. reflexivity.
  - repeat constructor. eexists. reflexivity.
Defined.

(** ** Flag collection *)

Section FlagFacts.
Context {Scraper FlagClause : Type}.

Implicit Types reg : gmap string (@scraperEntry Scraper FlagClause).
Implicit Types order : list (string * @scraperEntry Scraper FlagClause).
Implicit Types acc fl : gmap string FlagClause.

(** Copying the bindings of one entry over the collected ones is a union in
    which the entry's bindings take precedence. *)
Lemma copyFlags_union acc fl : copyFlags acc fl = fl ∪ acc.
Proof.
  unfold copyFlags.
  apply (map_fold_weak_ind (λ r m, r = m ∪ acc)).
  - by rewrite (left_id_L ∅ (∪)).
  - intros nm flag m r Hnm ->. by rewrite insert_union_l.
Qed.

Lemma copyFlags_lookup acc fl (f : string) :
  copyFlags acc fl !! f
  = match fl !! f with Some c => Some c | None => acc !! f end.
Proof.
  rewrite copyFlags_union, lookup_union. by destruct (fl !! f), (acc !! f).
Qed.

Lemma collect_unbound order : ∀ acc (f : string),
  Forall (λ kv, flags kv.2 !! f = None) order →
  foldl (λ acc kv, copyFlags acc (flags kv.2)) acc order !! f = acc !! f.
Proof.
  induction order as [|kv order IH]; intros acc f Hall; [done|].
  inversion Hall as [|? ? Hkv Hrest]; subst. simpl.
  rewrite IH by done. by rewrite copyFlags_lookup, Hkv.
Qed.

Lemma collect_origin order : ∀ acc (f : string) (c : FlagClause),
  foldl (λ acc kv, copyFlags acc (flags kv.2)) acc order !! f = Some c →
  acc !! f = Some c ∨ ∃ kv, kv ∈ order ∧ flags kv.2 !! f = Some c.
Proof.
  induction order as [|kv order IH]; intros acc f c H; [by left|].
  simpl in H. apply IH in H as [H|(kv' & Hin & H)].
  - rewrite copyFlags_lookup in H.
    destruct (flags kv.2 !! f) as [c'|] eqn:Hkv; [|by left].
    right. exists kv. split; [left|congruence].
  - right. exists kv'. split; [by right|done].
Qed.

Lemma collect_bound order : ∀ acc (f : string),
  is_Some (acc !! f) ∨ (∃ kv, kv ∈ order ∧ is_Some (flags kv.2 !! f)) →
  is_Some (foldl (λ acc kv, copyFlags acc (flags kv.2)) acc order !! f).
Proof.
  induction order as [|kv order IH]; intros acc f H.
  { destruct H as [H|(kv & Hin & _)]; [done|by apply elem_of_nil in Hin]. }
  simpl. apply IH. destruct H as [[c H]|(kv' & Hin & [c H])].
  - left. rewrite copyFlags_lookup, H. by destruct (flags kv.2 !! f).
  - apply elem_of_cons in Hin as [->|Hin].
    + left. rewrite copyFlags_lookup, H. by eexists.
    + right. exists kv'. split; [done|by eexists].
Qed.

(** The binding of the entry visited last among those that bind a name is
    the one collected. *)
Lemma collect_last order (pre post : list (string * scraperEntry))
    (kv : string * @scraperEntry Scraper FlagClause)
    (f : string) (c : FlagClause) :
  order = pre ++ kv :: post →
  flags kv.2 !! f = Some c →
  Forall (λ kv', flags kv'.2 !! f = None) post →
  AllScraperFlagsIn order !! f = Some c.
Proof.
  intros -> Hkv Hpost. unfold AllScraperFlagsIn.
  rewrite foldl_app. simpl. rewrite collect_unbound by done.
  by rewrite copyFlags_lookup, Hkv.
Qed.

Lemma rangeOrder_elem reg order (kv : string * scraperEntry) :
  rangeOrder reg order → kv ∈ order ↔ reg !! kv.1 = Some kv.2.
Proof.
  unfold rangeOrder. intros ->. destruct kv as [nm se].
  apply elem_of_map_to_list.
Qed.

End FlagFacts.

(** C6, as the code has it.  Along any order the range over the registry
    can take, [AllScraperFlags] returns a mapping whose keys are exactly the
    flag names bound by some registered scraper and whose values are
    bindings of registered scrapers under those names; a name bound by one
    scraper only maps to that binding; when several scrapers bind a name,
    no error is raised and the binding of the entry the range visits last
    wins. *)
Theorem AllScraperFlags_union_last_visited
    {Scraper FlagClause : Type}
    (reg : gmap string (@scraperEntry Scraper FlagClause))
    (order : list (string * @scraperEntry Scraper FlagClause)) :
  rangeOrder reg order →
  AllScraperFlags reg (AllScraperFlagsIn order)
  ∧ (∀ f, is_Some (AllScraperFlagsIn order !! f)
          ↔ ∃ nm se, reg !! nm = Some se ∧ is_Some (flags se !! f))
  ∧ (∀ f c, AllScraperFlagsIn order !! f = Some c →
            ∃ nm se, reg !! nm = Some se ∧ flags se !! f = Some c)
  ∧ (∀ f c nm se,
       reg !! nm = Some se → flags se !! f = Some c →
       (∀ nm' se', reg !! nm' = Some se' → nm' ≠ nm → flags se' !! f = None) →
       AllScraperFlagsIn order !! f = Some c)
  ∧ (∀ f c pre kv post,
       order = pre ++ kv :: post →
       flags kv.2 !! f = Some c →
       Forall (λ kv', flags kv'.2 !! f = None) post →
       AllScraperFlagsIn order !! f = Some c).
Proof.
  intros Horder.
  assert (∀ f c, AllScraperFlagsIn order !! f = Some c →
            ∃ nm se, reg !! nm = Some se ∧ flags se !! f = Some c) as Horigin.
  { intros f c H. apply collect_origin in H as [H|([nm se] & Hin & H)].
    - by rewrite lookup_empty in H.
    - exists nm, se. split; [|done].
      by apply (rangeOrder_elem reg order (nm, se)). }
  assert (∀ f, is_Some (AllScraperFlagsIn order !! f)
          ↔ ∃ nm se, reg !! nm = Some se ∧ is_Some (flags se !! f)) as Hkeys.
  { intros f. split.
    - intros [c H]. destruct (Horigin f c H) as (nm & se & ? & ?).
      exists nm, se. split; [done|by eexists].
    - intros (nm & se & Hreg & Hf). apply collect_bound. right.
      exists (nm, se). split; [|done].
      by apply (rangeOrder_elem reg order (nm, se)). }
  split; [by exists order|]. split; [done|]. split; [done|]. split.
  - intros f c nm se Hreg Hf Hothers.
    destruct (proj2 (Hkeys f)) as [c' Hc'].
    { exists nm, se. split; [done|by eexists]. }
    destruct (Horigin f c' Hc') as (nm' & se' & Hreg' & Hf').
    destruct (decide (nm' = nm)) as [->|Hne].
    + rewrite Hc'. congruence.
    + rewrite (Hothers nm' se' Hreg' Hne) in Hf'. done.
  - intros f c pre kv post. apply collect_last.
Qed.

(** The range over [bothRegistered] can visit the entry registered second
    before the one registered first. *)
Lemma rangeOrder_second_first :
  rangeOrder bothRegistered
    [("heartbeat.utc", secondEntry); ("heartbeat", firstEntry)].
Proof.
  unfold rangeOrder, bothRegistered.
  rewrite map_to_list_insert by reflexivity.
  rewrite map_to_list_insert by reflexivity.
  by rewrite map_to_list_empty.
Qed.

Lemma bothRegistered_by_registration :
  ∃ reg1,
    registerScraper collectorName collectorMakeFlags firstCollector true ∅
    = (reg1, None)
    ∧ registerScraper collectorName collectorMakeFlags secondCollector true reg1
      = (bothRegistered, None).
Proof. eexists. split; reflexivity. Qed.

Lemma AllScraperFlags_union_last_visited_witness :
  AllScraperFlagsIn [("heartbeat.utc", secondEntry); ("heartbeat", firstEntry)]
    !! "collect.heartbeat.utc" = Some 1%positive.
Proof.
  refine (proj2 (proj2 (proj2 (proj2
            (AllScraperFlags_union_last_visited bothRegistered
               [("heartbeat.utc", secondEntry); ("heartbeat", firstEntry)]
               rangeOrder_second_first))))
            "collect.heartbeat.utc" 1%positive
            [("heartbeat.utc", secondEntry)] ("heartbeat", firstEntry) []
            eq_refl eq_refl _).
  constructor.
Defined.

(** C6, as stated, fails: with two scrapers binding the same flag name, the
    binding of the scraper registered later need not be the one returned. *)
Lemma AllScraperFlags_later_registration_may_lose :
  ¬ (∀ (first second : collector)
       (reg1 reg2 : gmap string (@scraperEntry collector loc))
       (out : gmap string loc) (f : string) (c : loc),
       registerScraper collectorName collectorMakeFlags first true ∅
       = (reg1, None) →
       registerScraper collectorName collectorMakeFlags second true reg1
       = (reg2, None) →
       AllScraperFlags reg2 out →
       collectorMakeFlags second true !! f = Some c →
       out !! f = Some c).
Proof.
  intros Hclaim.
  destruct bothRegistered_by_registration as (reg1 & Hfirst & Hsecond).
  specialize (Hclaim firstCollector secondCollector reg1 bothRegistered
                (AllScraperFlagsIn [("heartbeat.utc", secondEntry);
                                    ("heartbeat", firstEntry)])
                "collect.heartbeat.utc" 2%positive Hfirst Hsecond).
  assert (AllScraperFlagsIn [("heartbeat.utc", secondEntry);
                             ("heartbeat", firstEntry)]
            !! "collect.heartbeat.utc" = Some 1%positive) as Hout.
  { apply (collect_last _ [("heartbeat.utc", secondEntry)] []
             ("heartbeat", firstEntry)); [done|done|constructor]. }
  assert (Some 1%positive = Some 2%positive) as Habs; [|discriminate Habs].
  etrans; [symmetry; exact Hout|]. apply Hclaim; [|reflexivity].
  exists [("heartbeat.utc", secondEntry); ("heartbeat", firstEntry)].
  split; [apply rangeOrder_second_first|done].
Qed.

(** ** Registration with defaults *)





(** * Further properties of the registry *)

Section RegistryLaws.
Context {Scraper FlagClause : Type}.
Variable Name : Scraper → string.
Variable makeFlagsFromScraper : Scraper → bool → gmap string FlagClause.

Implicit Types reg : gmap string (@scraperEntry Scraper FlagClause).
Implicit Types se : @scraperEntry Scraper FlagClause.

Lemma scraperEntry_eta se : mkEntry (enabled se) (flags se) (scraper se) = se.
Proof. by destruct se. Qed.

Lemma SetScraperEnabled_lookup reg (nm nm' : string) (b : bool) :
  SetScraperEnabled nm b reg !! nm'
  = (λ se, if decide (nm = nm') then mkEntry b (flags se) (scraper se) else se)
      <$> reg !! nm'.
Proof.
  unfold SetScraperEnabled.
  destruct (decide (nm = nm')) as [->|Hne].
  - destruct (reg !! nm') as [se|] eqn:H.
    + by rewrite lookup_insert_eq.
    + by rewrite H.
  - destruct (reg !! nm) as [se|] eqn:H.
    + rewrite lookup_insert_ne by done. by destruct (reg !! nm').
    + by destruct (reg !! nm').
Qed.

(** X1. A successful registration can be read back: the lookup returns the
    instance, the enabled flag is the one given, and every other name reads
    as before. *)
Theorem registerScraper_read_back (s : Scraper) (b : bool) reg :
  reg !! Name s = None →
  LookupScraper (Name s) (registerScraper Name makeFlagsFromScraper s b reg).1
  = (Some s, true)
  ∧ IsScraperEnabled (Name s)
      (registerScraper Name makeFlagsFromScraper s b reg).1 = b
  ∧ ∀ nm, nm ≠ Name s →
      LookupScraper nm (registerScraper Name makeFlagsFromScraper s b reg).1
      = LookupScraper nm reg
      ∧ IsScraperEnabled nm
          (registerScraper Name makeFlagsFromScraper s b reg).1
        = IsScraperEnabled nm reg.
Proof.
  intros Hfree. rewrite registerScraper_fresh by done. simpl.
  unfold LookupScraper, IsScraperEnabled. rewrite lookup_insert_eq.
  split; [done|]. split; [done|].
  intros nm Hne. by rewrite lookup_insert_ne.
Qed.

(** X2. [registerScraper] returns nil exactly when the name was free, and
    then the registry has one entry more; it returns an error exactly when
    the name was taken, and then the registry is the one it was given. *)
Theorem registerScraper_outcome (s : Scraper) (b : bool) reg :
  match registerScraper Name makeFlagsFromScraper s b reg with
  | (reg', None) =>
      reg !! Name s = None ∧ size reg' = S (size reg)
      ∧ dom reg' = {[Name s]} ∪ dom reg
  | (reg', Some _) => is_Some (reg !! Name s) ∧ reg' = reg
  end.
Proof.
  unfold registerScraper. destruct (reg !! Name s) as [se|] eqn:H.
  - split; [by eexists|done].
  - split; [done|]. split; [by apply map_size_insert_None|].
    by rewrite dom_insert_L.
Qed.

(** X3. Whatever the first call did, a second registration under the same
    name, of the same instance or of another one, fails with the
    duplicate-name error and changes nothing. *)
Theorem registerScraper_second_fails (s s' : Scraper) (b b' : bool) reg :
  Name s' = Name s →
  registerScraper Name makeFlagsFromScraper s' b'
    (registerScraper Name makeFlagsFromScraper s b reg).1
  = ((registerScraper Name makeFlagsFromScraper s b reg).1,
     Some (Errorf ("scraper with name " +:+ Name s'
                     +:+ " is already registered"))).
Proof.
  intros Hname. unfold registerScraper at 2 3.
  destruct (reg !! Name s) as [se|] eqn:H; simpl.
  - unfold registerScraper. by rewrite Hname, H.
  - unfold registerScraper. by rewrite Hname, lookup_insert_eq.
Qed.

(** X4. [SetScraperEnabled] touches nothing but the enabled flag of the
    named entry: the set of names, every lookup, every entry's flag bindings
    and the enabled flag of every other name are as before. *)
Theorem SetScraperEnabled_frame reg (nm nm' : string) (b : bool) :
  dom (SetScraperEnabled nm b reg) = dom reg
  ∧ LookupScraper nm' (SetScraperEnabled nm b reg) = LookupScraper nm' reg
  ∧ flags <$> SetScraperEnabled nm b reg !! nm' = flags <$> reg !! nm'
  ∧ (nm' ≠ nm →
     IsScraperEnabled nm' (SetScraperEnabled nm b reg)
     = IsScraperEnabled nm' reg).
Proof.
  split; [|split; [|split]].
  - unfold SetScraperEnabled. destruct (reg !! nm) as [se|] eqn:H; [|done].
    rewrite dom_insert_L. apply (elem_of_dom_2 (D := gset string)) in H.
    apply set_eq. intros x. rewrite elem_of_union, elem_of_singleton.
    split; [intros [->|?]; done|by right].
  - unfold LookupScraper. rewrite SetScraperEnabled_lookup.
    destruct (reg !! nm') as [se|]; [|done]. simpl. by case_decide.
  - rewrite SetScraperEnabled_lookup.
    destruct (reg !! nm') as [se|]; [|done]. simpl. by case_decide.
  - intros Hne. unfold IsScraperEnabled. rewrite SetScraperEnabled_lookup.
    destruct (reg !! nm') as [se|]; [|done]. simpl.
    case_decide; [congruence|done].
Qed.

(** X5. Of two writes of the enabled flag of one name the last one wins, and
    writing the value [IsScraperEnabled] reports changes nothing. *)
Theorem SetScraperEnabled_last_write reg (nm : string) (b1 b2 : bool) :
  SetScraperEnabled nm b2 (SetScraperEnabled nm b1 reg)
  = SetScraperEnabled nm b2 reg
  ∧ SetScraperEnabled nm (IsScraperEnabled nm reg) reg = reg.
Proof.
  split.
  - apply map_eq. intros nm'. rewrite !SetScraperEnabled_lookup.
    destruct (reg !! nm') as [se|]; [|done]. simpl. by case_decide.
  - apply map_eq. intros nm'. rewrite SetScraperEnabled_lookup.
    unfold IsScraperEnabled.
    destruct (reg !! nm') as [se|] eqn:H; [|done]. simpl.
    case_decide; [|done]. subst nm'. rewrite H. by rewrite scraperEntry_eta.
Qed.

(** X6. Writes of the enabled flags of two names can be done in either
    order. *)
Theorem SetScraperEnabled_commute reg (nm1 nm2 : string) (b1 b2 : bool) :
  nm1 ≠ nm2 →
  SetScraperEnabled nm1 b1 (SetScraperEnabled nm2 b2 reg)
  = SetScraperEnabled nm2 b2 (SetScraperEnabled nm1 b1 reg).
Proof.
  intros Hne. apply map_eq. intros nm'. rewrite !SetScraperEnabled_lookup.
  destruct (reg !! nm') as [se|]; [|done]. simpl.
  repeat case_decide; congruence.
Qed.

End RegistryLaws.

Section RangeLaws.
Context {Scraper FlagClause : Type}.
Variable Name : Scraper → string.
Variable makeFlagsFromScraper : Scraper → bool → gmap string FlagClause.

Implicit Types reg : gmap string (@scraperEntry Scraper FlagClause).
Implicit Types order : list (string * @scraperEntry Scraper FlagClause).

(** The entries of a registry built by a successful run of registrations:
    those it had and one per registration. *)
Lemma registerEach_entries (l : list (Scraper * bool)) : ∀ reg reg',
  registerEach Name makeFlagsFromScraper l reg = (reg', None) →
  map_to_list reg'
  ≡ₚ ((λ sb, (Name sb.1, mkEntry sb.2 (makeFlagsFromScraper sb.1 sb.2) sb.1))
        <$> l) ++ map_to_list reg.
Proof.
  induction l as [|[s b] l IH]; intros reg reg' Hrun.
  { simpl in Hrun. by injection Hrun as <-. }
  simpl in Hrun. unfold registerScraper in Hrun.
  destruct (reg !! Name s) as [se|] eqn:Hs; [done|].
  rewrite (IH _ _ Hrun), map_to_list_insert by done. simpl.
  by rewrite Permutation_middle.
Qed.

(** Writing an enabled flag maps every run of the range to a run over the
    same names whose entries differ in that flag only. *)
Lemma rangeOrder_SetScraperEnabled reg order (nm : string) (b : bool) :
  rangeOrder reg order →
  rangeOrder (SetScraperEnabled nm b reg)
    ((λ kv, (kv.1, if decide (nm = kv.1)
                   then mkEntry b (flags kv.2) (scraper kv.2) else kv.2))
       <$> order).
Proof.
  intros Horder. unfold rangeOrder. apply NoDup_Permutation.
  - apply (NoDup_fmap_1 fst). rewrite <- list_fmap_compose.
    unfold rangeOrder in Horder.
    change (NoDup (order.*1)). rewrite Horder.
    apply NoDup_fst_map_to_list.
  - apply NoDup_map_to_list.
  - intros [k v]. rewrite list_elem_of_fmap, elem_of_map_to_list.
    rewrite SetScraperEnabled_lookup. split.
    + intros ([k' se] & [= -> ->] & Hin). simpl.
      apply (rangeOrder_elem reg order (k', se) Horder) in Hin.
      simpl in Hin. by rewrite Hin.
    + intros Hv. destruct (reg !! k) as [se|] eqn:Hk; [|done].
      injection Hv as <-. exists (k, se). split; [done|].
      by apply (rangeOrder_elem reg order (k, se) Horder).
Qed.

Lemma collect_SetScraperEnabled order (nm : string) (b : bool) :
  AllScraperFlagsIn
    ((λ kv, (kv.1, if decide (nm = kv.1)
                   then mkEntry b (flags kv.2) (scraper kv.2) else kv.2))
       <$> order)
  = AllScraperFlagsIn order.
Proof.
  unfold AllScraperFlagsIn. generalize (∅ : gmap string FlagClause).
  induction order as [|kv order IH]; intros acc; [done|].
  simpl. rewrite IH. by case_decide.
Qed.

Lemma AllScraperFlags_SetScraperEnabled_1 reg (nm : string) (b : bool)
    (out : gmap string FlagClause) :
  AllScraperFlags reg out → AllScraperFlags (SetScraperEnabled nm b reg) out.
Proof.
  intros (order & Horder & ->).
  eexists. split; [by apply rangeOrder_SetScraperEnabled|].
  by rewrite collect_SetScraperEnabled.
Qed.

Lemma SetScraperEnabled_undo reg (nm : string) (b : bool) :
  SetScraperEnabled nm (IsScraperEnabled nm reg) (SetScraperEnabled nm b reg)
  = reg.
Proof.
  apply map_eq. intros nm'. rewrite !SetScraperEnabled_lookup.
  unfold IsScraperEnabled.
  destruct (reg !! nm') as [se|] eqn:H; [|done]. simpl.
  case_decide; [|done]. subst nm'. rewrite H. simpl.
  by rewrite scraperEntry_eta.
Qed.

(** X7. Writing an enabled flag does not change what [AllScraperFlags] can
    return. *)
Theorem AllScraperFlags_SetScraperEnabled reg (nm : string) (b : bool)
    (out : gmap string FlagClause) :
  AllScraperFlags (SetScraperEnabled nm b reg) out ↔ AllScraperFlags reg out.
Proof.
  split; [|apply AllScraperFlags_SetScraperEnabled_1].
  intros H.
  apply (AllScraperFlags_SetScraperEnabled_1 _ nm (IsScraperEnabled nm reg))
    in H.
  by rewrite SetScraperEnabled_undo in H.
Qed.

(** X8. Along any order of the range, [AllScrapers] returns as many
    scrapers as the registry has entries, and a scraper is returned exactly
    when some entry holds it, whether the entry is enabled or not. *)
Theorem AllScrapers_registered reg order :
  rangeOrder reg order →
  length (AllScrapersIn order) = size reg
  ∧ ∀ s, s ∈ AllScrapersIn order
         ↔ ∃ nm se, reg !! nm = Some se ∧ scraper se = s.
Proof.
  intros Horder. unfold AllScrapersIn. split.
  - rewrite length_fmap. unfold rangeOrder in Horder. rewrite Horder.
    apply length_map_to_list.
  - intros s. rewrite list_elem_of_fmap. split.
    + intros ([nm se] & -> & Hin). exists nm, se. split; [|done].
      by apply (rangeOrder_elem reg order (nm, se) Horder).
    + intros (nm & se & Hreg & <-). exists (nm, se). split; [done|].
      by apply (rangeOrder_elem reg order (nm, se) Horder).
Qed.

(** X9. After a successful run of registrations on an empty registry,
    [AllScrapers] returns the registered scrapers, each once, in some
    order. *)
Theorem AllScrapers_after_registerEach (l : list (Scraper * bool)) reg order :
  registerEach Name makeFlagsFromScraper l ∅ = (reg, None) →
  rangeOrder reg order →
  AllScrapersIn order ≡ₚ l.*1.
Proof.
  intros Hrun Horder. unfold AllScrapersIn.
  unfold rangeOrder in Horder. rewrite Horder.
  rewrite (registerEach_entries l ∅ reg Hrun), map_to_list_empty.
  rewrite (right_id_L [] (++)), <- list_fmap_compose. done.
Qed.

(** X10. When no two entries bind the same flag name, [AllScraperFlags]
    returns the same mapping along every order of the range: a flag name
    maps to a clause exactly when some entry binds it so. *)
Theorem AllScraperFlags_no_collision reg order1 order2 :
  (∀ nm1 nm2 se1 se2 f,
     reg !! nm1 = Some se1 → reg !! nm2 = Some se2 → nm1 ≠ nm2 →
     is_Some (flags se1 !! f) → flags se2 !! f = None) →
  rangeOrder reg order1 →
  rangeOrder reg order2 →
  AllScraperFlagsIn order1 = AllScraperFlagsIn order2
  ∧ ∀ f c, AllScraperFlagsIn order1 !! f = Some c
           ↔ ∃ nm se, reg !! nm = Some se ∧ flags se !! f = Some c.
Proof.
  intros Hdisjoint Horder1 Horder2.
  assert (∀ order, rangeOrder reg order →
            ∀ f c, AllScraperFlagsIn order !! f = Some c
                   ↔ ∃ nm se, reg !! nm = Some se ∧ flags se !! f = Some c)
    as Hchar.
  { intros order Horder f c. split.
    - intros H. apply collect_origin in H as [H|([nm se] & Hin & H)].
      + by rewrite lookup_empty in H.
      + exists nm, se. split; [|done].
        by apply (rangeOrder_elem reg order (nm, se)).
    - intros (nm & se & Hreg & Hf).
      destruct (collect_bound order ∅ f) as [c' Hc'].
      { right. exists (nm, se). split; [|by eexists].
        by apply (rangeOrder_elem reg order (nm, se)). }
      fold (AllScraperFlagsIn order) in Hc'. rewrite Hc'.
      apply collect_origin in Hc' as [H|([nm' se'] & Hin & H)].
      { by rewrite lookup_empty in H. }
      apply (rangeOrder_elem reg order (nm', se') Horder) in Hin.
      simpl in Hin, H.
      destruct (decide (nm = nm')) as [->|Hne]; [congruence|].
      rewrite (Hdisjoint nm nm' se se' f Hreg Hin Hne) in H; [done|].
      by eexists. }
  split; [|by apply Hchar].
  apply map_eq. intros f. apply option_eq. intros c.
  by rewrite (Hchar order1 Horder1), (Hchar order2 Horder2).
Qed.

(** X11. A run of registrations succeeds exactly when the names are
    pairwise distinct and none of them was taken. *)
Theorem registerEach_succeeds_iff (l : list (Scraper * bool)) reg :
  (registerEach Name makeFlagsFromScraper l reg).2 = None
  ↔ NoDup ((λ sb, Name sb.1) <$> l)
    ∧ ∀ sb, sb ∈ l → reg !! Name sb.1 = None.
Proof.
  split.
  - revert reg. induction l as [|[s b] l IH]; intros reg Hrun.
    { split; [constructor|]. intros sb Hsb. by apply elem_of_nil in Hsb. }
    simpl in Hrun. unfold registerScraper in Hrun.
    destruct (reg !! Name s) as [se|] eqn:Hs; [done|].
    apply IH in Hrun as [Hnd Hfresh].
    assert (∀ sb, sb ∈ l → Name sb.1 ≠ Name s) as Hother.
    { intros sb Hsb Heq. specialize (Hfresh sb Hsb).
      by rewrite Heq, lookup_insert_eq in Hfresh. }
    split.
    + simpl. apply NoDup_cons. split; [|done].
      intros Hin. apply list_elem_of_fmap in Hin as (sb & Heq & Hsb).
      by apply (Hother sb Hsb).
    + intros sb Hsb. apply elem_of_cons in Hsb as [->|Hsb]; [done|].
      specialize (Hfresh sb Hsb).
      by rewrite lookup_insert_ne in Hfresh by (symmetry; by apply Hother).
  - intros [Hnd Hfresh].
    destruct (registerEach_distinct Name makeFlagsFromScraper l reg Hnd Hfresh)
      as (reg' & -> & _). done.
Qed.

End RangeLaws.

(** X12. [mustRegisterScraperWithDefaults] returns only when the name was
    free, and then the registry gained the entry of the scraper; when it
    panics the registry is the one it was given.  In both cases the store is
    the one [Configure] on the defaults left (no rollback), and the store of
    a scraper that is not Configurable is not touched. *)
Theorem mustRegisterScraperWithDefaults_outcome
    {Scraper FlagClause Store : Type} (Name : Scraper → string)
    (makeFlagsFromScraper : Scraper → bool → gmap string FlagClause)
    (asConfigurable : Scraper → option (Configurable (Store := Store)))
    (s : Scraper) (b : bool) (st : Store)
    (reg : gmap string scraperEntry) :
  match mustRegisterScraperWithDefaults Name makeFlagsFromScraper
          asConfigurable s b st reg with
  | (st', reg', Returns) =>
      reg !! Name s = None
      ∧ reg' = <[Name s := mkEntry b (makeFlagsFromScraper s b) s]> reg
  | (st', reg', Panics e) => reg' = reg
  end
  ∧ (mustRegisterScraperWithDefaults Name makeFlagsFromScraper
       asConfigurable s b st reg).1.1
    = match asConfigurable s with
      | Some cfg => (Configure cfg (defaultArgs (ArgDefinitions cfg)) st).1
      | None => st
      end.
Proof.
  unfold mustRegisterScraperWithDefaults, registerScraper.
  destruct (asConfigurable s) as [cfg|].
  - destruct (Configure cfg _ st) as [st1 [e|]]; [done|].
    by destruct (reg !! Name s).
  - by destruct (reg !! Name s).
Qed.

(** * Further properties of the heartbeat scraper *)

Section HeartbeatLaws.
Import Heartbeat.

(** What [configureArg] accepts, read off its [switch]: a string for
    "database" or "table", a boolean for "utc". *)
Lemma configureArg_accepts (s : ScrapeHeartbeat) (a : Arg.t) :
  (∃ s', configureArg s a = inl s')
  ↔ (Arg.Name a = "database" ∨ Arg.Name a = "table")
      ∧ kindOf (Arg.Value a) = KString
    ∨ Arg.Name a = "utc" ∧ kindOf (Arg.Value a) = KBool.
Proof.
  destruct a as [n v]. unfold configureArg. simpl.
  unfold heartbeatDatabase, heartbeatTable, heartbeatUtc.
  destruct (decide (n = "database")) as [->|Hd].
  { destruct v; simpl; split;
      try (intros [? [=]]); try (intros [[_ [=]]|[[=] _]]); eauto. }
  destruct (decide (n = "table")) as [->|Ht].
  { destruct v; simpl; split;
      try (intros [? [=]]); try (intros [[_ [=]]|[[=] _]]); eauto. }
  destruct (decide (n = "utc")) as [->|Hu].
  { destruct v; simpl; split;
      try (intros [? [=]]); try (intros [[[[=]|[=]] _]|[_ [=]]]); eauto. }
  split; [by intros [? [=]]|]. intros [[[?|?] _]|[? _]]; congruence.
Qed.

(** The error of one loop iteration does not depend on the state. *)
Lemma configureArg_error_stateless (s s' : ScrapeHeartbeat) (a : Arg.t) :
  match configureArg s a, configureArg s' a with
  | inl _, inl _ => True
  | inr e, inr e' => e = e'
  | _, _ => False
  end.
Proof.
  destruct a as [n v]. unfold configureArg. simpl.
  repeat case_decide; by destruct v.
Qed.

Lemma configureArg_SetEnabled (s : ScrapeHeartbeat) (a : Arg.t) (b : bool) :
  configureArg (SetEnabled s b) a
  = match configureArg s a with
    | inl s' => inl (SetEnabled s' b)
    | inr e => inr e
    end.
Proof.
  destruct a as [n v]. unfold configureArg. simpl.
  repeat case_decide; by destruct v.
Qed.

(** X13. [Configure] on the arguments [Args] reports succeeds and installs
    the reported configuration: on the scraper itself it changes nothing,
    on another instance it copies the configuration and leaves the enabled
    flag alone. *)
Theorem Configure_Args_round_trip (s s' : ScrapeHeartbeat) :
  Configure s (Args s) = (s, None)
  ∧ Configure s' (Args s)
    = (mk (database s) (enabled s') (table s) (utc s), None)
  ∧ Args (Configure s' (Args s)).1 = Args s.
Proof. by destruct s, s'. Qed.

(** X14. [Configure] on a concatenation: the second part is applied to the
    state the first part leaves when the first part succeeds, and is not
    looked at when the first part fails. *)
Theorem Configure_concatenation (s : ScrapeHeartbeat) (args1 args2 : list Arg.t) :
  Configure s (args1 ++ args2)
  = match Configure s args1 with
    | (s1, None) => Configure s1 args2
    | (s1, Some e) => (s1, Some e)
    end.
Proof.
  revert s. induction args1 as [|a args1 IH]; intros s; [done|].
  simpl. destruct (configureArg s a) as [s'|e]; [apply IH|done].
Qed.

(** X15. Enablement and configuration do not interfere: [SetEnabled] is
    read back by [Enabled] and leaves [Args] alone, [Configure] never
    changes the enabled flag, and [Configure] after [SetEnabled] is
    [SetEnabled] after [Configure], with the same error. *)
Theorem Configure_SetEnabled_independent
    (s : ScrapeHeartbeat) (args : list Arg.t) (b : bool) :
  Enabled (SetEnabled s b) = b
  ∧ Args (SetEnabled s b) = Args s
  ∧ Enabled (Configure s args).1 = Enabled s
  ∧ Configure (SetEnabled s b) args
    = (SetEnabled (Configure s args).1 b, (Configure s args).2).
Proof.
  split; [done|]. split; [done|]. split.
  - revert s. induction args as [|a args IH]; intros s; [done|].
    simpl. destruct (configureArg s a) as [s'|e] eqn:Ha; [|done].
    rewrite IH. destruct a as [n v]. unfold configureArg in Ha. simpl in Ha.
    repeat case_decide; destruct v; by simplify_eq.
  - revert s. induction args as [|a args IH]; intros s; [done|].
    simpl. rewrite configureArg_SetEnabled.
    destruct (configureArg s a) as [s'|e]; [apply IH|done].
Qed.

(** X16. [Configure] returns nil exactly when every argument is a string
    for "database" or "table" or a boolean for "utc"; whether it fails, and
    with which error, does not depend on the state it starts from. *)
Theorem Configure_succeeds_iff (s s' : ScrapeHeartbeat) (args : list Arg.t) :
  ((Configure s args).2 = None
   ↔ Forall (λ a, (Arg.Name a = "database" ∨ Arg.Name a = "table")
                    ∧ kindOf (Arg.Value a) = KString
                  ∨ Arg.Name a = "utc" ∧ kindOf (Arg.Value a) = KBool) args)
  ∧ (Configure s args).2 = (Configure s' args).2.
Proof.
  split.
  - revert s. induction args as [|a args IH]; intros s.
    { split; [constructor|done]. }
    simpl. rewrite Forall_cons, <- (configureArg_accepts s a).
    destruct (configureArg s a) as [s1|e].
    + rewrite IH. split; [by eauto|by intros [_ ?]].
    + simpl. split; [done|]. by intros [[? [=]] _].
  - revert s s'. induction args as [|a args IH]; intros s s'; [done|].
    simpl. pose proof (configureArg_error_stateless s s' a) as H.
    destruct (configureArg s a), (configureArg s' a);
      first [apply IH | done | simpl; by subst].
Qed.

End HeartbeatLaws.

Section ConfigureLastWrite.
Import Heartbeat.

Lemma configureArg_installs (s s' : ScrapeHeartbeat) (a : Arg.t) :
  configureArg s a = inl s' → a ∈ Args s'.
Proof.
  destruct a as [n v]. unfold configureArg, Args. simpl.
  unfold heartbeatDatabase, heartbeatTable, heartbeatUtc.
  repeat case_decide; destruct v; intros [= <-]; subst; simpl.
  - by left.
  - right. by left.
  - right. right. by left.
Qed.

Lemma configureArg_keeps_others (s s' : ScrapeHeartbeat) (a a' : Arg.t) :
  configureArg s a' = inl s' →
  Arg.Name a' ≠ Arg.Name a →
  a ∈ Args s → a ∈ Args s'.
Proof.
  destruct a' as [n' v']. unfold configureArg, Args. simpl.
  unfold heartbeatDatabase, heartbeatTable, heartbeatUtc.
  rewrite !elem_of_cons.
  repeat case_decide; destruct v'; intros [= <-]; subst; simpl;
    intros Hne [->|[->|[->|Hnil]]];
    try (by apply elem_of_nil in Hnil); simpl in Hne; try done; eauto.
Qed.

Lemma Configure_keeps_others (a : Arg.t) (post : list Arg.t) :
  ∀ s s', Configure s post = (s', None) →
  Forall (λ a', Arg.Name a' ≠ Arg.Name a) post →
  a ∈ Args s → a ∈ Args s'.
Proof.
  induction post as [|a' post IH]; intros s s' Hrun Hpost Hin.
  { by injection Hrun as <-. }
  inversion Hpost as [|? ? Hne Hrest]; subst. simpl in Hrun.
  destruct (configureArg s a') as [s1|e] eqn:Ha'; [|done].
  apply (IH s1 s' Hrun Hrest).
  by apply (configureArg_keeps_others s s1 a a').
Qed.

(** X17. In a call of [Configure] that returns nil, an argument that no
    later argument of the call names again is the one [Args] reports
    afterwards: the last write of a name wins. *)
Theorem Configure_last_write_wins
    (s : ScrapeHeartbeat) (pre post : list Arg.t) (a : Arg.t) :
  (Configure s (pre ++ a :: post)).2 = None →
  Forall (λ a', Arg.Name a' ≠ Arg.Name a) post →
  a ∈ Args (Configure s (pre ++ a :: post)).1.
Proof.
  revert s. induction pre as [|a0 pre IH]; intros s Hok Hpost.
  - simpl in *. destruct (configureArg s a) as [s1|e] eqn:Ha; [|done].
    destruct (Configure s1 post) as [s' r] eqn:Hrun. simpl in Hok. subst r.
    apply (Configure_keeps_others a post s1 s' Hrun Hpost).
    by apply (configureArg_installs s).
  - simpl in *. destruct (configureArg s a0) as [s1|e]; [|done].
    by apply IH.
Qed.

End ConfigureLastWrite.

Lemma Configure_last_write_wins_witness :
  Arg.mk "table" (VString "hb2")
  ∈ Heartbeat.Args
      (Heartbeat.Configure Heartbeat.zero
         ([Arg.mk "table" (VString "hb1")]
            ++ Arg.mk "table" (VString "hb2")
            :: [Arg.mk "utc" (VBool true)])).1.
Proof.
  apply (Configure_last_write_wins Heartbeat.zero
           [Arg.mk "table" (VString "hb1")] [Arg.mk "utc" (VBool true)]
           (Arg.mk "table" (VString "hb2"))).
  - reflexivity.
  - repeat constructor. simpl. discriminate.
Defined.

(** * Further properties of the scrape *)

Section ScrapeLaws.
Import Heartbeat.
Context {float64 : Type}.
Variable ParseFloat : string → float64 + error.
Variable namespace : string.

Abbreviation scrapeRows' := (Heartbeat.scrapeRows ParseFloat namespace).
Abbreviation rowParses' := (Heartbeat.rowParses ParseFloat namespace).
Abbreviation rowsSamples' := (Heartbeat.rowsSamples ParseFloat namespace).
Abbreviation Scrape' := (Heartbeat.Scrape ParseFloat namespace).
Abbreviation queryOf s :=
  (heartbeatQuery (nowExpr (utc s)) (database s) (table s)).

Lemma scrapeRows_nil_inv (rows : list row) : ∀ sent,
  scrapeRows' rows = (sent, Return None) →
  Forall (λ r, is_Some (rowParses' r)) rows ∧ sent = rowsSamples' rows.
Proof.
  induction rows as [|r rows IH]; intros sent Hrun.
  { simpl in Hrun. injection Hrun as <-. by split. }
  destruct (rowParses' r) as [ms|] eqn:Hr.
  - rewrite (scrapeRows_parsed ParseFloat namespace r rows ms Hr) in Hrun.
    destruct (scrapeRows' rows) as [sent' e'] eqn:Hrest.
    simpl in Hrun. injection Hrun as <- ->.
    destruct (IH sent' eq_refl) as [Hall ->].
    split; [constructor; [by rewrite Hr|done]|]. simpl. by rewrite Hr.
  - destruct (scrapeRows_rejected ParseFloat namespace r rows Hr) as [e He].
    rewrite He in Hrun. done.
Qed.

Lemma scrapeRows_error_stops (rows more : list row) : ∀ sent e,
  scrapeRows' rows = (sent, Return (Some e)) →
  scrapeRows' (rows ++ more) = (sent, Return (Some e)).
Proof.
  induction rows as [|r rows IH]; intros sent e Hrun; [done|].
  change ((r :: rows) ++ more) with (r :: (rows ++ more)).
  destruct (rowParses' r) as [ms|] eqn:Hr.
  - rewrite (scrapeRows_parsed ParseFloat namespace r rows ms Hr) in Hrun.
    rewrite (scrapeRows_parsed ParseFloat namespace r _ ms Hr).
    destruct (scrapeRows' rows) as [sent' e'] eqn:Hrest.
    simpl in Hrun. injection Hrun as <- ->.
    by rewrite (IH sent' e eq_refl).
  - destruct r as [e0|ts now id]; simpl in *; [done|].
    destruct (ParseFloat ts); [|done]. by destruct (ParseFloat now).
Qed.

Lemma scrapeRows_prefix (rows more : list row) :
  (scrapeRows' rows).1 `prefix_of` (scrapeRows' (rows ++ more)).1.
Proof.
  induction rows as [|r rows IH]; [apply prefix_nil|].
  change ((r :: rows) ++ more) with (r :: (rows ++ more)).
  destruct (rowParses' r) as [ms|] eqn:Hr.
  - rewrite (scrapeRows_parsed ParseFloat namespace r rows ms Hr).
    rewrite (scrapeRows_parsed ParseFloat namespace r _ ms Hr).
    simpl. by apply prefix_app.
  - destruct (scrapeRows_rejected ParseFloat namespace r rows Hr) as [e ->].
    apply prefix_nil.
Qed.

Lemma rowsSamples_shape (rows : list row) :
  Forall (λ m, valueType m = GaugeValue
               ∧ length (labelValues m) = 1%nat
               ∧ (desc m = HeartbeatNowDesc namespace
                  ∨ desc m = HeartbeatStoredDesc namespace))
    (rowsSamples' rows).
Proof.
  induction rows as [|r rows IH]; [constructor|].
  simpl. apply Forall_app. split; [|done].
  destruct r as [e|ts now id]; simpl; [constructor|].
  destruct (ParseFloat ts); [|constructor].
  destruct (ParseFloat now); [|constructor].
  simpl. constructor; [by eauto|]. constructor; [by eauto|constructor].
Qed.

(** X18. The scrape returns nil exactly when the query succeeded and every
    row scanned and parsed, and then what it sent is the two samples of
    every row, in row order; an empty result set gives nil and no sample. *)
Theorem Scrape_returns_nil_iff
    (s : ScrapeHeartbeat) (db : string → list row + error)
    (sent : list Metric) :
  Scrape' s db = (sent, Return None)
  ↔ ∃ rows, db (queryOf s) = inl rows
            ∧ Forall (λ r, is_Some (rowParses' r)) rows
            ∧ sent = rowsSamples' rows
            ∧ length sent = (2 * length rows)%nat.
Proof.
  unfold Heartbeat.Scrape. split.
  - destruct (db _) as [rows|e]; [|done]. intros Hrun.
    apply scrapeRows_nil_inv in Hrun as [Hall ->].
    exists rows. repeat (split; [done|]). by apply rowsSamples_length.
  - intros (rows & -> & Hall & -> & _).
    pose proof (scrapeRows_app ParseFloat namespace rows [] Hall) as H.
    simpl in H. by rewrite !(right_id_L [] (++)) in H.
Qed.

(** X19. When the query succeeds and the scrape reaches a row that fails to
    scan, it returns that scan error; the samples of the earlier rows have
    been sent, nothing else. *)
Theorem Scrape_scan_error
    (s : ScrapeHeartbeat) (db : string → list row + error)
    (pre post : list row) (e : error) :
  db (queryOf s) = inl (pre ++ ScanError e :: post) →
  Forall (λ r, is_Some (rowParses' r)) pre →
  Scrape' s db = (rowsSamples' pre, Return (Some e)).
Proof.
  intros Hdb Hpre. unfold Heartbeat.Scrape.
  rewrite Hdb, scrapeRows_app by done. simpl.
  by rewrite (right_id_L [] (++)).
Qed.

(** X20. Whatever the data source answers, every metric sent is a gauge of
    one of the two heartbeat descriptors with exactly one label value, the
    number of metrics sent is even and at most two per row, and nothing is
    sent when the query fails. *)
Theorem Scrape_sent_shape
    (s : ScrapeHeartbeat) (db : string → list row + error) :
  Forall (λ m, valueType m = GaugeValue
               ∧ length (labelValues m) = 1%nat
               ∧ (desc m = HeartbeatNowDesc namespace
                  ∨ desc m = HeartbeatStoredDesc namespace))
    (Scrape' s db).1
  ∧ (∃ k, length (Scrape' s db).1 = (2 * k)%nat
          ∧ ∀ rows, db (queryOf s) = inl rows → (k ≤ length rows)%nat)
  ∧ ∀ e, db (queryOf s) = inr e → Scrape' s db = ([], Return (Some e)).
Proof.
  unfold Heartbeat.Scrape. destruct (db _) as [rows|e].
  - destruct (scrapeRows_whole_rows ParseFloat namespace rows)
      as (k & Hsent & Hall & _).
    rewrite Hsent. split; [apply rowsSamples_shape|]. split; [|done].
    exists (length (take k rows)). split; [by apply rowsSamples_length|].
    intros ? [= <-]. rewrite length_take. lia.
  - split; [constructor|]. split; [|by intros ? [= ->]].
    exists 0%nat. split; [done|]. by intros ? [=].
Qed.

(** X21. Rows are handled in order and later rows are not looked at before
    earlier ones are done with: with more rows at the end of the answer,
    what was sent before is sent first again, and a scrape that returned an
    error returns the same error after the same samples. *)
Theorem Scrape_more_rows
    (s : ScrapeHeartbeat) (db1 db2 : string → list row + error)
    (rows more : list row) :
  db1 (queryOf s) = inl rows →
  db2 (queryOf s) = inl (rows ++ more) →
  (Scrape' s db1).1 `prefix_of` (Scrape' s db2).1
  ∧ ∀ e, (Scrape' s db1).2 = Return (Some e) → Scrape' s db2 = Scrape' s db1.
Proof.
  intros H1 H2. unfold Heartbeat.Scrape. rewrite H1, H2. split.
  - apply scrapeRows_prefix.
  - intros e He. destruct (scrapeRows' rows) as [sent r] eqn:Hrun.
    simpl in He. subst r. by apply scrapeRows_error_stops.
Qed.

(** X22. The names given to [Configure] reach the query of the next scrape
    as they are: the database and the table between backquotes, and the
    expression of the current time chosen by the utc argument. *)
Theorem Scrape_after_Configure
    (s : ScrapeHeartbeat) (d t : string) (u : bool)
    (db : string → list row + error) :
  Scrape'
    (Configure s [ Arg.mk "database" (VString d); Arg.mk "table" (VString t);
                   Arg.mk "utc" (VBool u) ]).1 db
  = match db ("SELECT UNIX_TIMESTAMP(ts), UNIX_TIMESTAMP("
                +:+ (if u then "UTC_TIMESTAMP(6)" else "NOW(6)")
                +:+ "), server_id from `" +:+ d +:+ "`.`" +:+ t +:+ "`") with
    | inl rows => scrapeRows' rows
    | inr e => ([], Return (Some e))
    end.
Proof. by destruct u. Qed.

End ScrapeLaws.

(** * Runs on sample inputs *)

Lemma registerScraper_read_back_witness :
  LookupScraper "heartbeat"
    (registerScraper collectorName collectorMakeFlags firstCollector true noneRegistered).1
  = (Some firstCollector, true)
  ∧ IsScraperEnabled "heartbeat"
      (registerScraper collectorName collectorMakeFlags firstCollector true noneRegistered).1
    = true
  ∧ ∀ nm, nm ≠ "heartbeat" →
      LookupScraper nm
        (registerScraper collectorName collectorMakeFlags firstCollector true
           noneRegistered).1
      = LookupScraper nm noneRegistered
      ∧ IsScraperEnabled nm
          (registerScraper collectorName collectorMakeFlags firstCollector
             true noneRegistered).1
        = IsScraperEnabled nm noneRegistered.
Proof.
  apply (registerScraper_read_back collectorName collectorMakeFlags
           firstCollector true noneRegistered).
  reflexivity.
Defined.

Lemma registerScraper_second_fails_witness :
  registerScraper collectorName collectorMakeFlags
    (mkCollector "heartbeat" ∅) false
    (registerScraper collectorName collectorMakeFlags firstCollector true noneRegistered).1
  = ((registerScraper collectorName collectorMakeFlags firstCollector true
        noneRegistered).1,
     Some (Errorf "scraper with name heartbeat is already registered")).
Proof.
  apply (registerScraper_second_fails collectorName collectorMakeFlags
           firstCollector (mkCollector "heartbeat" ∅) true false noneRegistered).
  reflexivity.
Defined.

Lemma SetScraperEnabled_commute_witness :
  SetScraperEnabled "heartbeat" false
    (SetScraperEnabled "heartbeat.utc" false bothRegistered)
  = SetScraperEnabled "heartbeat.utc" false
      (SetScraperEnabled "heartbeat" false bothRegistered).
Proof.
  apply (SetScraperEnabled_commute bothRegistered "heartbeat" "heartbeat.utc"
           false false).
  discriminate.
Defined.

Lemma AllScrapers_registered_witness :
  length (AllScrapersIn [("heartbeat.utc", secondEntry);
                         ("heartbeat", firstEntry)])
  = size bothRegistered
  ∧ ∀ s, s ∈ AllScrapersIn [("heartbeat.utc", secondEntry);
                            ("heartbeat", firstEntry)]
         ↔ ∃ nm se, bothRegistered !! nm = Some se ∧ scraper se = s.
Proof.
  apply (AllScrapers_registered bothRegistered
           [("heartbeat.utc", secondEntry); ("heartbeat", firstEntry)]).
  apply rangeOrder_second_first.
Defined.

Lemma AllScrapers_after_registerEach_witness :
  AllScrapersIn [("heartbeat.utc", secondEntry); ("heartbeat", firstEntry)]
  ≡ₚ [(firstCollector, true); (secondCollector, true)].*1.
Proof.
  apply (AllScrapers_after_registerEach collectorName collectorMakeFlags
           [(firstCollector, true); (secondCollector, true)] bothRegistered
           [("heartbeat.utc", secondEntry); ("heartbeat", firstEntry)]).
  - reflexivity.
  - apply rangeOrder_second_first.
Defined.

Lemma firstAndThird_no_collision (nm1 nm2 : string)
    (se1 se2 : @scraperEntry collector loc) (f : string) :
  firstAndThird !! nm1 = Some se1 → firstAndThird !! nm2 = Some se2 →
  nm1 ≠ nm2 → is_Some (flags se1 !! f) → flags se2 !! f = None.
Proof.
  unfold firstAndThird. intros H1 H2 Hne [c Hf].
  apply lookup_insert_Some in H1 as [[<- <-]|[_ H1]];
    [|apply lookup_insert_Some in H1 as [[<- <-]|[_ H1]];
      [|by rewrite lookup_empty in H1]];
    (apply lookup_insert_Some in H2 as [[<- <-]|[_ H2]];
      [|apply lookup_insert_Some in H2 as [[<- <-]|[_ H2]];
        [|by rewrite lookup_empty in H2]]);
    try done;
    unfold thirdEntry, firstEntry, collectorMakeFlags, thirdCollector,
      firstCollector in *; simpl in *;
    apply lookup_singleton_Some in Hf as [<- _]; reflexivity.
Qed.

Lemma rangeOrder_firstAndThird :
  rangeOrder firstAndThird
    [("binlog_size", thirdEntry); ("heartbeat", firstEntry)]
  ∧ rangeOrder firstAndThird
      [("heartbeat", firstEntry); ("binlog_size", thirdEntry)].
Proof.
  assert (rangeOrder firstAndThird
            [("binlog_size", thirdEntry); ("heartbeat", firstEntry)]) as H.
  { unfold rangeOrder, firstAndThird.
    rewrite map_to_list_insert by reflexivity.
    rewrite map_to_list_insert by reflexivity.
    by rewrite map_to_list_empty. }
  split; [done|]. unfold rangeOrder in *. rewrite <- H. apply perm_swap.
Qed.

Lemma AllScraperFlags_no_collision_witness :
  AllScraperFlagsIn [("binlog_size", thirdEntry); ("heartbeat", firstEntry)]
  = AllScraperFlagsIn [("heartbeat", firstEntry); ("binlog_size", thirdEntry)]
  ∧ ∀ f c,
      AllScraperFlagsIn [("binlog_size", thirdEntry); ("heartbeat", firstEntry)]
        !! f = Some c
      ↔ ∃ nm se, firstAndThird !! nm = Some se ∧ flags se !! f = Some c.
Proof.
  apply (AllScraperFlags_no_collision firstAndThird
           [("binlog_size", thirdEntry); ("heartbeat", firstEntry)]
           [("heartbeat", firstEntry); ("binlog_size", thirdEntry)]).
  - apply firstAndThird_no_collision.
  - apply rangeOrder_firstAndThird.
  - apply rangeOrder_firstAndThird.
Defined.

Lemma Scrape_scan_error_witness :
  Heartbeat.Scrape decimalLiteral "mysql" Heartbeat.zero
    (answering [ Heartbeat.Scanned "100.5" "200.75" 7;
                 Heartbeat.ScanError (ErrLibrary "sql: Scan error");
                 Heartbeat.Scanned "100.5" "200.75" 9 ])
  = (Heartbeat.rowsSamples decimalLiteral "mysql"
       [Heartbeat.Scanned "100.5" "200.75" 7],
     Heartbeat.Return (Some (ErrLibrary "sql: Scan error"))).
Proof.
  apply (Scrape_scan_error decimalLiteral "mysql" Heartbeat.zero
           (answering [ Heartbeat.Scanned "100.5" "200.75" 7;
                        Heartbeat.ScanError (ErrLibrary "sql: Scan error");
                        Heartbeat.Scanned "100.5" "200.75" 9 ])
           [Heartbeat.Scanned "100.5" "200.75" 7]
           [Heartbeat.Scanned "100.5" "200.75" 9]
           (ErrLibrary "sql: Scan error")).
  - reflexivity.
  - repeat constructor. eexists. reflexivity.
Defined.

Lemma Scrape_more_rows_witness :
  (Heartbeat.Scrape decimalLiteral "mysql" Heartbeat.zero
     (answering [Heartbeat.Scanned "100.5" "200.75" 7])).1
  `prefix_of`
  (Heartbeat.Scrape decimalLiteral "mysql" Heartbeat.zero
     (answering ([Heartbeat.Scanned "100.5" "200.75" 7]
                   ++ [Heartbeat.Scanned "101.5" "200.75" 8]))).1
  ∧ ∀ e,
      (Heartbeat.Scrape decimalLiteral "mysql" Heartbeat.zero
         (answering [Heartbeat.Scanned "100.5" "200.75" 7])).2
      = Heartbeat.Return (Some e) →
      Heartbeat.Scrape decimalLiteral "mysql" Heartbeat.zero
        (answering ([Heartbeat.Scanned "100.5" "200.75" 7]
                      ++ [Heartbeat.Scanned "101.5" "200.75" 8]))
      = Heartbeat.Scrape decimalLiteral "mysql" Heartbeat.zero
          (answering [Heartbeat.Scanned "100.5" "200.75" 7]).
Proof.
  apply (Scrape_more_rows decimalLiteral "mysql" Heartbeat.zero
           (answering [Heartbeat.Scanned "100.5" "200.75" 7])
           (answering ([Heartbeat.Scanned "100.5" "200.75" 7]
                         ++ [Heartbeat.Scanned "101.5" "200.75" 8]))
           [Heartbeat.Scanned "100.5" "200.75" 7]
           [Heartbeat.Scanned "101.5" "200.75" 8]).
  - reflexivity.
  - reflexivity.
Defined.
